(** * temp-email-cli: the address store and the mailbox provider client

    A shallow embedding of [src/storageService.js] (class [StorageService])
    and of [src/src/emailService.js] (class [EmailService]), with the
    properties of the specification that concern them. *)

From Stdlib Require Import ZArith QArith Qround Ascii String Lia.
From stdpp Require Import gmap strings list fin_maps pretty.

Local Open Scope Z_scope.
Set Warnings "-register-all".

(** ** The address store *)

Module StorageService.

(** Field values of a stored object.  A timestamp is written to the file by
    [Date.prototype.toISOString] and read back by [new Date(string)]; the
    ISO-8601 text of the instant [t] (milliseconds since the epoch) is
    represented by [VTime t], every other string by [VStr]. *)
Inductive value : Type :=
  | VStr (s : string)
  | VTime (t : Z)
  | VNum (n : Z)
  | VBool (b : bool)
  | VNull.

#[global] Instance value_eq_dec : EqDecision value.
Proof. solve_decision. Defined.

(** A JavaScript object with string keys; a key that is absent reads as
    [undefined]. *)
Abbreviation record := (gmap string value).

(** [{...a, ...b}]: the properties of [b] win. *)
Definition spread (a b : record) : record := b ∪ a.

(** [new Date(v)] as a time value; [None] is the Invalid Date, whose time
    value is NaN. *)
Definition Date (v : option value) : option Z :=
  match v with
  | None => None
  | Some (VStr _) => None
  | Some (VTime t) => Some t
  | Some (VNum n) => if Z.abs n <=? 8640000000000000 then Some n else None
  | Some (VBool b) => Some (if b then 1 else 0)
  | Some VNull => Some 0
  end.

(** [d > now] on Date objects: a comparison of time values, false on NaN. *)
Definition after (d : option Z) (now : Z) : bool :=
  match d with
  | Some t => now <? t
  | None => false
  end.

(** Milliseconds in a day: [setDate(getDate() + n)] moves the instant by [n]
    calendar days (the time zone offset is taken to be constant). *)
Definition msPerDay : Z := 86400000.

(** The storage file and the service object.  [file = None]: the file does
    not exist; a file that exists holds the JSON array that [_writeToFile]
    wrote.  [writable] tells whether [fs.writeFile] succeeds. *)
Record state : Type := State {
  file : option (list record);
  writable : bool;
  initialized : bool
}.

Definition _writeToFile (addresses : list record) (s : state) : bool * state :=
  if writable s
  then (true, State (Some addresses) (writable s) (initialized s))
  else (false, s).

Definition _initialize (s : state) : state :=
  let s1 := match file s with
            | Some _ => s
            | None => snd (_writeToFile [] s)
            end in
  State (file s1) (writable s1) true.

Definition _readFromFile (s : state) : list record * state :=
  let s1 := if initialized s then s else _initialize s in
  (match file s1 with
   | Some addresses => addresses
   | None => []
   end, s1).

(** [Array.prototype.findIndex]; [None] stands for [-1]. *)
Fixpoint findIndex {A} (p : A → bool) (l : list A) : option nat :=
  match l with
  | [] => None
  | x :: l' => if p x then Some 0%nat else S <$> findIndex p l'
  end.

(** [item.address === address] *)
Definition has_address (address : string) (item : record) : bool :=
  bool_decide (item !! "address" = Some (VStr address)).

(** [saveAddress(address, metadata)] called at the instant [now], on a
    service built with [expirationDays]; the readings of the clock made
    during one call are taken to be the same instant. *)
Definition saveAddress (expirationDays now : Z) (address : string)
    (metadata : record) (s : state) : bool * state :=
  let '(addresses, s1) := _readFromFile s in
  let expiresAt := now + expirationDays * msPerDay in
  let existingIndex := findIndex (has_address address) addresses in
  let addressData : record :=
    <["updatedAt" := VTime now]>
      (<["expiresAt" := VTime expiresAt]>
         (spread {["address" := VStr address]} metadata)) in
  match existingIndex with
  | Some i =>
      _writeToFile
        (<[i := spread (default ∅ (addresses !! i)) addressData]> addresses) s1
  | None =>
      _writeToFile (addresses ++ [<["createdAt" := VTime now]> addressData]) s1
  end.

Definition getAddressMetadata (address : string) (s : state)
  : option record * state :=
  let '(addresses, s1) := _readFromFile s in
  (List.find (has_address address) addresses, s1).

Definition not_expired (now : Z) (address : record) : bool :=
  after (Date (address !! "expiresAt")) now.

Definition getAddresses (includeExpired : bool) (now : Z) (s : state)
  : list record * state :=
  let '(addresses, s1) := _readFromFile s in
  if includeExpired then (addresses, s1)
  else (List.filter (not_expired now) addresses, s1).

Definition removeAddress (address : string) (s : state) : bool * state :=
  let '(addresses, s1) := _readFromFile s in
  let filteredAddresses :=
    List.filter (fun item => negb (has_address address item)) addresses in
  if (length filteredAddresses =? length addresses)%nat then (false, s1)
  else _writeToFile filteredAddresses s1.

Definition cleanupExpired (now : Z) (s : state) : Z * state :=
  let '(addresses, s1) := _readFromFile s in
  let validAddresses := List.filter (not_expired now) addresses in
  let removedCount :=
    Z.of_nat (length addresses) - Z.of_nat (length validAddresses) in
  if 0 <? removedCount
  then (removedCount, snd (_writeToFile validAddresses s1))
  else (removedCount, s1).

(** The records of the collection that carry a given address. *)
Definition with_address (address : string) (l : list record) : list record :=
  List.filter (has_address address) l.

(** The collection as the next operation reads it. *)
Definition stored (s : state) : list record := fst (_readFromFile s).

(** The object [addressData] that [saveAddress] builds, as a function of its
    arguments. *)
Definition savedData (expirationDays now : Z) (address : string)
    (metadata : record) : record :=
  <["updatedAt" := VTime now]>
    (<["expiresAt" := VTime (now + expirationDays * msPerDay)]>
       (spread {["address" := VStr address]} metadata)).


(** Sample stores: an address saved once on a new store; saved again with
    metadata that carries a creation time; saved with metadata that carries
    another address; and a store of three records of which two have expired
    at the instant 5000. *)
Definition new_store : state := State None true false.

Definition saved_once : state :=
  snd (saveAddress 7 1000 "a@example.com" ∅ new_store).



Definition three_saved : state :=
  State (Some [ {["address" := VStr "a@example.com"; "expiresAt" := VTime 4000]};
                {["address" := VStr "b@example.com"; "expiresAt" := VTime 5000]};
                {["address" := VStr "c@example.com"; "expiresAt" := VTime 6000]} ])
        true true.

End StorageService.

(** ** The mailbox provider client *)

Module EmailService.

(** JSON values as JavaScript sees them, with [undefined].  Numbers are the
    integers; an object is the list of its own properties. *)
Inductive json : Type :=
  | JUndefined
  | JNull
  | JBool (b : bool)
  | JNum (n : Z)
  | JStr (s : string)
  | JArr (items : list json)
  | JObj (fields : list (string * json)).

(** An axios response and a thrown [Error]; [response] is set on the errors
    axios raises for a reply outside 2xx, and on no other. *)
Record http_response : Type := Response { status : Z; data : json }.
Record error : Type := Error { message : string; response : option http_response }.

Inductive completion (A : Type) : Type :=
  | Return (a : A)
  | Throw (e : error).
Arguments Return {A} a.
Arguments Throw {A} e.

(** What the provider does with a request: it answers, or the transport
    fails (no connection, timeout) with a reason. *)
Inductive reply : Type :=
  | Answer (r : http_response)
  | NoAnswer (reason : string).

Record request : Type := Request {
  method : string;
  url : string;
  body : json;
  sent_authorization : option string
}.

Inductive event : Type :=
  | Sent (r : request)
  | Slept (ms : Z).

(** The world of a call: the [Authorization] entry of
    [client.defaults.headers.common], the replies the provider gives to the
    requests to come, and what has happened so far (oldest first).  Console
    output is left out. *)
Record world : Type := World {
  authorization : option string;
  provider : list reply;
  trace : list event
}.

Definition M (A : Type) : Type := world → completion A * world.

Definition ret {A} (a : A) : M A := fun w => (Return a, w).
Definition throw {A} (e : error) : M A := fun w => (Throw e, w).
Definition bind {A B} (c : M A) (k : A → M B) : M B :=
  fun w => match c w with
           | (Return a, w1) => k a w1
           | (Throw e, w1) => (Throw e, w1)
           end.
Definition try_catch {A} (c : M A) (handler : error → M A) : M A :=
  fun w => match c w with
           | (Return a, w1) => (Return a, w1)
           | (Throw e, w1) => handler e w1
           end.
(** A computation without effects, run inside a call. *)
Definition run {A} (c : completion A) : M A := fun w => (c, w).

Declare Scope js_scope.
Delimit Scope js_scope with js.
Notation "'let*' x := c 'in' k" := (bind c (fun x => k))
  (at level 10, x name, c at level 100, k at level 200) : js_scope.
Notation "c 'then*' k" := (bind c (fun _ => k))
  (at level 100, k at level 200, right associativity) : js_scope.
Local Open Scope js_scope.

Definition and_then {A B} (c : completion A) (k : A → completion B) : completion B :=
  match c with
  | Return a => k a
  | Throw e => Throw e
  end.

(** ToBoolean *)
Definition truthy (v : json) : bool :=
  match v with
  | JUndefined | JNull => false
  | JBool b => b
  | JNum n => negb (n =? 0)
  | JStr s => negb (String.eqb s "")
  | JArr _ | JObj _ => true
  end.

Definition join (sep : string) (l : list string) : string :=
  match l with
  | [] => ""
  | s :: l' => fold_left (fun acc x => acc +:+ sep +:+ x) l' s
  end.

(** ToString, as a template literal applies it. *)
Fixpoint to_String (v : json) : string :=
  match v with
  | JUndefined => "undefined"
  | JNull => "null"
  | JBool b => if b then "true" else "false"
  | JNum n => pretty n
  | JStr s => s
  | JArr items =>
      join "," (List.map (fun x => match x with
                                   | JUndefined | JNull => ""
                                   | _ => to_String x
                                   end) items)
  | JObj _ => "[object Object]"
  end.

Fixpoint own_property (name : string) (fields : list (string * json)) : json :=
  match fields with
  | [] => JUndefined
  | (k, v) :: fields' => if String.eqb k name then v else own_property name fields'
  end.

(** [v.name]: a TypeError on [undefined] and [null]. *)
Definition prop (name : string) (v : json) : completion json :=
  match v with
  | JUndefined | JNull =>
      Throw (Error ("Cannot read properties of " +:+ to_String v
                    +:+ " (reading '" +:+ name +:+ "')") None)
  | JObj fields => Return (own_property name fields)
  | _ => Return JUndefined
  end.

Definition isArray (v : json) : bool :=
  match v with
  | JArr _ => true
  | _ => false
  end.

(** One request through the axios client: the per-request [Authorization]
    header wins over the default one; a reply outside 2xx is rejected with
    the response attached, a transport failure with none. *)
Definition send (method url : string) (body : json) (auth : option string)
  : M http_response :=
  fun w =>
    let header := match auth with
                  | Some h => Some h
                  | None => authorization w
                  end in
    let w1 := World (authorization w) (tail (provider w))
                    (trace w ++ [Sent (Request method url body header)]) in
    match provider w with
    | [] => (Throw (Error "Network Error" None), w1)
    | NoAnswer reason :: _ => (Throw (Error reason None), w1)
    | Answer r :: _ =>
        if (200 <=? status r) && (status r <? 300)
        then (Return r, w1)
        else (Throw (Error ("Request failed with status code " +:+ pretty (status r))
                           (Some r)), w1)
    end.

(** [await new Promise(resolve => setTimeout(resolve, ms))] *)
Definition sleep (ms : Z) : M unit :=
  fun w => (Return tt, World (authorization w) (provider w) (trace w ++ [Slept ms])).

(** The service object: [maxRetries] and [retryDelay], set by the
    constructor from an optional configuration. *)
Record settings : Type := Settings {
  set_maxRetries : option Z;
  set_retryDelay : option Z
}.
Record service : Type := Service { maxRetries : Z; retryDelay : Z }.

(** [x || d] on an optional number. *)
Definition or_else (x : option Z) (d : Z) : Z :=
  match x with
  | Some n => if n =? 0 then d else n
  | None => d
  end.

Definition constructor (config : settings) : service :=
  Service (or_else (set_maxRetries config) 3) (or_else (set_retryDelay config) 1000).

Definition no_settings : settings := Settings None None.

Definition setAuthToken (token : json) : M unit :=
  fun w => (Return tt, World (Some ("Bearer " +:+ to_String token)) (provider w) (trace w)).

Definition clearAuthToken : M unit :=
  fun w => (Return tt, World None (provider w) (trace w)).

(** [error.response?.status === 429] *)
Definition rate_limited (e : error) : bool :=
  match response e with
  | Some r => status r =? 429
  | None => false
  end.

Definition exhausted (maxRetries : Z) (e : error) : error :=
  Error ("Operation failed after " +:+ pretty maxRetries +:+ " attempts: " +:+ message e) None.

Section withRetry.
Variable this : service.
Variable apiCall : M json.
Variable options : settings.

Definition maxRetries_of : Z := or_else (set_maxRetries options) (maxRetries this).
Definition retryDelay_of : Z := or_else (set_retryDelay options) (retryDelay this).

Definition backoff (attempt : Z) (e : error) : Z :=
  if rate_limited e then retryDelay_of * 2 ^ (attempt - 1) else retryDelay_of.

(** The [for] loop with [left] iterations to go; when none is left the
    function ends without a [return]. *)
Fixpoint attempts (left : nat) (attempt : Z) (w : world) : completion json * world :=
  match left with
  | O => (Return JUndefined, w)
  | S left' =>
      match apiCall w with
      | (Return v, w1) => (Return v, w1)
      | (Throw e, w1) =>
          if attempt =? maxRetries_of
          then (Throw (exhausted maxRetries_of e), w1)
          else attempts left' (attempt + 1) (snd (sleep (backoff attempt e) w1))
      end
  end.

(** The loop entered at [attempt]: it runs while [attempt <= maxRetries]. *)
Definition from_attempt (attempt : Z) : M json :=
  attempts (Z.to_nat (maxRetries_of + 1 - attempt)) attempt.

Definition withRetry : M json := from_attempt 1.
End withRetry.


(** A plain [Error], as [new Error(message)] builds it. *)
Definition new_Error (message : string) : error := Error message None.

Definition credentials (address password : string) : json :=
  JObj [("address", JStr address); ("password", JStr password)].

(** The local part of a new address.  [rnd i] is the outcome of the i-th call
    of [Math.random] made while it is built, a number of [0, 1); the products
    and [Math.floor] are taken exactly.  [String.fromCharCode] is given on
    the codes below 256, the only ones a byte string holds. *)
Definition fromCharCode (code : Z) : ascii := ascii_of_N (Z.to_N code).

Definition generateUsername (rnd : nat → Q) : string :=
  let length := Qfloor (rnd 0%nat * 5) + 12 in
  string_of_list_ascii
    (List.map (fun i => fromCharCode (97 + Qfloor (rnd (S i) * 26)))
              (seq 0 (Z.to_nat length))).

Definition getAvailableDomain (this : service) : M json :=
  try_catch
    (withRetry this
       (let* response := send "GET" "/domains" JUndefined None in
        let found :=
          match data response with
          | JArr (domainObj :: _) =>
              if truthy domainObj
              then and_then (prop "domain" domainObj)
                     (fun domain => Return (if truthy domain then Some domain else None))
              else Return None
          | _ => Return None
          end in
        let* found := run found in
        match found with
        | Some domain => ret domain
        | None => throw (new_Error "No valid domains found in the response")
        end)
       no_settings)
    (fun error =>
       throw (new_Error ("Unable to retrieve available email domains: " +:+ message error))).

Definition getAuthToken (this : service) (address password : string) : M json :=
  try_catch
    (withRetry this
       (let* response := send "POST" "/token" (credentials address password) None in
        run (prop "token" (data response)))
       no_settings)
    (fun error => throw (new_Error ("Authentication failed: " +:+ message error))).

(** The kinds of failure that provisioning tells apart, and the message it
    gives each. *)
Inductive error_kind : Type :=
  | InvalidAddressFormat
  | RateLimited
  | BadRequest
  | Forbidden
  | ProviderServerError
  | NetworkError (underlying : string).

Definition describe (k : error_kind) : string :=
  match k with
  | InvalidAddressFormat =>
      "Invalid email address format or domain. Please try again with a different address format."
  | RateLimited =>
      "Rate limit exceeded. The service is temporarily unavailable. Please try again after a few minutes."
  | BadRequest =>
      "Bad request: Email provider rejected the request. Check your input parameters."
  | Forbidden =>
      "Access forbidden: Your IP might be blocked by the email provider."
  | ProviderServerError =>
      "Email provider server error. Please try again later."
  | NetworkError underlying =>
      "Failed to create email address: " +:+ underlying
      +:+ ". Please check your internet connection and try again."
  end.

(** The [catch] block of [createEmailAddress]. *)
Definition classify (e : error) : error_kind :=
  match response e with
  | Some r =>
      if status r =? 422 then InvalidAddressFormat
      else if status r =? 429 then RateLimited
      else if status r =? 400 then BadRequest
      else if status r =? 403 then Forbidden
      else if status r =? 500 then ProviderServerError
      else NetworkError (message e)
  | None => NetworkError (message e)
  end.

(** [!v || !v.name] *)
Definition lacks (name : string) (v : json) : completion bool :=
  if negb (truthy v) then Return true
  else and_then (prop name v) (fun x => Return (negb (truthy x))).

(** The call that [createEmailAddress] retries: create the account, then
    fetch its token, each after a pause. *)
Definition createAccount (address password : string) : M json :=
  sleep 1000 then*
  let* accountResponse := send "POST" "/accounts" (credentials address password) None in
  let* invalid := run (lacks "id" (data accountResponse)) in
  if (invalid : bool) then throw (new_Error "Invalid account creation response") else
  sleep 1000 then*
  let* tokenResponse := send "POST" "/token" (credentials address password) None in
  let* invalid := run (lacks "token" (data tokenResponse)) in
  if (invalid : bool) then throw (new_Error "Invalid token response") else
  let* id := run (prop "id" (data accountResponse)) in
  let* created := run (prop "address" (data accountResponse)) in
  let* token := run (prop "token" (data tokenResponse)) in
  ret (JObj [("id", id); ("address", created); ("token", token);
             ("password", JStr password)]).

Definition createEmailAddress (this : service) (rnd : nat → Q)
    (password : option string) : M json :=
  let password := default "Password123!" password in
  try_catch
    (let* domain := getAvailableDomain this in
     if negb (truthy domain)
     then throw (new_Error "Failed to retrieve a valid email domain")
     else
       let username := generateUsername rnd in
       let address := username +:+ "@" +:+ to_String domain in
       withRetry this (createAccount address password)
                 (Settings (Some 5) (Some 3000)))
    (fun error => throw (new_Error (describe (classify error)))).

(** The summary of one message of the list. *)
Definition summary (msg : json) : completion json :=
  and_then (prop "id" msg) (fun id =>
  and_then (prop "from" msg) (fun from =>
  and_then (prop "to" msg) (fun to =>
  and_then (prop "subject" msg) (fun subject =>
  and_then (prop "intro" msg) (fun intro =>
  and_then (prop "hasAttachments" msg) (fun hasAttachments =>
  and_then (prop "createdAt" msg) (fun createdAt =>
  Return (JObj [("id", id); ("from", from); ("to", to); ("subject", subject);
                ("intro", intro); ("hasAttachments", hasAttachments);
                ("receivedDate", createdAt)])))))))).

(** [Array.prototype.map] with a callback that may throw. *)
Fixpoint map_throwing (f : json → completion json) (l : list json)
  : completion (list json) :=
  match l with
  | [] => Return []
  | x :: l' =>
      and_then (f x) (fun y =>
      and_then (map_throwing f l') (fun ys => Return (y :: ys)))
  end.

(** The value [getEmails] builds from the body of the list response. *)
Definition summaries (d : json) : completion json :=
  and_then (if truthy d then prop "hydra:member" d else Return JUndefined)
    (fun members =>
       match members with
       | JArr msgs => and_then (map_throwing summary msgs) (fun l => Return (JArr l))
       | _ => Return (JArr [])
       end).

Definition getEmails (address password : string) : M json :=
  try_catch
    (let* authResponse := send "POST" "/token" (credentials address password) None in
     let* token := run (prop "token" (data authResponse)) in
     setAuthToken token then*
     let* response := send "GET" "/messages?page=1&limit=20" JUndefined None in
     clearAuthToken then*
     run (summaries (data response)))
    (fun error =>
       clearAuthToken then*
       throw (new_Error ("Failed to fetch emails: " +:+ message error))).

Definition content (d : json) : completion json :=
  and_then (prop "id" d) (fun id =>
  and_then (prop "from" d) (fun from =>
  and_then (prop "to" d) (fun to =>
  and_then (prop "subject" d) (fun subject =>
  and_then (prop "text" d) (fun text =>
  and_then (prop "html" d) (fun html =>
  and_then (prop "attachments" d) (fun attachments =>
  and_then (prop "createdAt" d) (fun createdAt =>
  Return (JObj [("id", id); ("from", from); ("to", to); ("subject", subject);
                ("text", text); ("html", html); ("attachments", attachments);
                ("receivedDate", createdAt)]))))))))).

Definition getEmailContent (messageId address password : string) : M json :=
  try_catch
    (let* authResponse := send "POST" "/token" (credentials address password) None in
     let* token := run (prop "token" (data authResponse)) in
     setAuthToken token then*
     let* response := send "GET" ("/messages/" +:+ messageId) JUndefined None in
     clearAuthToken then*
     run (if negb (truthy (data response))
          then Throw (new_Error "Invalid response from server")
          else content (data response)))
    (fun error =>
       clearAuthToken then*
       throw (new_Error ("Failed to fetch email content: " +:+ message error))).

Definition deleteEmail (this : service) (emailId token : json) : M json :=
  try_catch
    (if negb (truthy emailId) || negb (truthy token)
     then throw (new_Error "Email ID and token are required")
     else
       withRetry this
         (send "DELETE" ("/messages/" +:+ to_String emailId) JUndefined
               (Some ("Bearer " +:+ to_String token)) then*
          ret (JBool true))
         no_settings)
    (fun error => throw (new_Error ("Failed to delete email: " +:+ message error))).

Definition deleteAccount (this : service) (accountId token : json) : M json :=
  try_catch
    (if negb (truthy accountId) || negb (truthy token)
     then throw (new_Error "Account ID and token are required")
     else
       withRetry this
         (send "DELETE" ("/accounts/" +:+ to_String accountId) JUndefined
               (Some ("Bearer " +:+ to_String token)) then*
          ret (JBool true))
         no_settings)
    (fun error => throw (new_Error ("Failed to delete account: " +:+ message error))).

(** [^[a-z]{12,16}$] *)
Definition lowercase (c : ascii) : bool :=
  ((97 <=? N_of_ascii c) && (N_of_ascii c <=? 122))%N.

Definition matches_local_part (s : string) : bool :=
  ((12 <=? String.length s) && (String.length s <=? 16))%nat
  && forallb lowercase (list_ascii_of_string s).

(** Sample runs: the service as [index.js] builds it; a provider that
    answers 429 twice and then accepts; one that answers 429 three times;
    one that offers a domain and then rejects every account with 422. *)
Definition default_service : service := constructor no_settings.

Definition status_only (code : Z) : reply := Answer (Response code JNull).

Definition offline (replies : list reply) : world := World None replies [].

Definition delete_message : M json :=
  send "DELETE" "/messages/m1" JUndefined (Some "Bearer tok") then* ret (JBool true).

Definition limited_twice : world :=
  offline [status_only 429; status_only 429; Answer (Response 204 JUndefined)].

Definition limited_always : world :=
  offline [status_only 429; status_only 429; status_only 429].

Definition example_domains : reply :=
  Answer (Response 200 (JArr [JObj [("domain", JStr "example.com")]])).

Definition rejecting_accounts : world :=
  offline [example_domains; status_only 422; status_only 422; status_only 422;
           status_only 422; status_only 422].

Definition half : nat → Q := fun _ => 1 # 2.

Definition no_members : world :=
  offline [Answer (Response 200 (JObj [("token", JStr "tok")]));
           Answer (Response 200 (JObj [("hydra:member", JStr "none")]))].


(** A call that ends with the default [Authorization] header it began with. *)
Definition keeps_authorization {A} (c : M A) : Prop :=
  ∀ w, authorization (snd (c w)) = authorization w.

(** A request, as opposed to a wait. *)
Definition is_request (ev : event) : bool :=
  match ev with
  | Sent _ => true
  | Slept _ => false
  end.

Definition impatient_service : service := constructor (Settings (Some (-1)) None).

(** A provider that issues a token and lists one message. *)
Definition one_message : world :=
  offline [Answer (Response 200 (JObj [("token", JStr "tok")]));
           Answer (Response 200 (JObj [("hydra:member",
             JArr [JObj [("id", JStr "m1");
                         ("createdAt", JStr "2024-01-01T00:00:00+00:00")]])]))].

(** A provider that offers a domain, creates the account (its reply has no
    [address]) and issues a token. *)
Definition accepting_provider : world :=
  offline [example_domains;
           Answer (Response 200 (JObj [("id", JStr "abc")]));
           Answer (Response 200 (JObj [("token", JStr "tok")]))].

End EmailService.

(** ** The front end: the status column of the address table *)

Module CLIInterface.
Import StorageService.

Inductive status : Type :=
  | Active
  | Expired
  | ExpiringSoon.

(** The status that [listAddresses] prints for one row, computed at [now];
    comparisons with the Invalid Date are false. *)
Definition rowStatus (now : Z) (address : record) : status :=
  let expirationDate := Date (address !! "expiresAt") in
  if match expirationDate with Some t => t <? now | None => false end
  then Expired
  else if match expirationDate with
          | Some t => t - now <? 24 * 60 * 60 * 1000
          | None => false
          end
       then ExpiringSoon
       else Active.

End CLIInterface.

(** * Properties of the address store *)

Section StorageProperties.
Import StorageService.

Lemma stored_State (l : list record) (wr ini : bool) :
  stored (State (Some l) wr ini) = l.
Proof. unfold stored, _readFromFile, _initialize. by destruct ini. Qed.

(** Reading initialises the service at most once and never changes what is
    read afterwards. *)
Lemma _readFromFile_stored (s : state) :
  stored (snd (_readFromFile s)) = stored s
  ∧ writable (snd (_readFromFile s)) = writable s.
Proof.
  unfold stored, _readFromFile, _initialize, _writeToFile.
  destruct s as [[l|] [] []]; simpl; done.
Qed.

Lemma _writeToFile_ok (l : list record) (s : state) :
  writable s = true →
  ∃ s', _writeToFile l s = (true, s') ∧ file s' = Some l ∧ stored s' = l.
Proof.
  intros Hw. unfold _writeToFile. rewrite Hw. eexists. split; [done|].
  split; [done|]. apply stored_State.
Qed.

Lemma findIndex_None {A} (p : A → bool) (l : list A) :
  findIndex p l = None → List.filter p l = [].
Proof.
  induction l as [|x l IH]; simpl; [done|].
  destruct (p x); [done|]. destruct (findIndex p l); [done|]. auto.
Qed.

Lemma findIndex_Some {A} (p : A → bool) (l : list A) (i : nat) :
  findIndex p l = Some i →
  ∃ l1 x l2, l = l1 ++ x :: l2 ∧ length l1 = i ∧ p x = true
             ∧ List.filter p l1 = [].
Proof.
  revert i. induction l as [|x l IH]; simpl; intros i Hi; [done|].
  destruct (p x) eqn:Hx.
  - injection Hi as <-. by exists [], x, l.
  - destruct (findIndex p l) as [j|] eqn:Hj; [|done].
    injection Hi as <-. destruct (IH j eq_refl) as (l1 & y & l2 & -> & <- & Hy & Hl1).
    exists (x :: l1), y, l2. simpl. by rewrite Hx.
Qed.

Lemma has_address_true (a : string) (r : record) :
  has_address a r = true ↔ r !! "address" = Some (VStr a).
Proof. unfold has_address. by rewrite bool_decide_eq_true. Qed.

Lemma has_address_other (a b : string) (r : record) :
  a ≠ b → has_address a r = true → has_address b r = false.
Proof.
  rewrite has_address_true. intros Hne Ha. unfold has_address.
  apply bool_decide_eq_false. rewrite Ha. congruence.
Qed.

Lemma spread_Some (a b : record) (k : string) (v : value) :
  b !! k = Some v → spread a b !! k = Some v.
Proof. apply lookup_union_Some_l. Qed.

Lemma spread_None (a b : record) (k : string) :
  b !! k = None → spread a b !! k = a !! k.
Proof. apply lookup_union_r. Qed.





Lemma not_expired_true (now : Z) (r : record) :
  not_expired now r = true ↔ ∃ t, Date (r !! "expiresAt") = Some t ∧ now < t.
Proof.
  unfold not_expired, after. destruct (Date (r !! "expiresAt")) as [t|].
  - rewrite Z.ltb_lt. split; [eauto|]. by intros (? & [= <-] & ?).
  - split; [done|]. by intros (? & ? & ?).
Qed.

(** C5: [getAddresses(false)] called at [now] returns a stored record exactly
    when its [expiresAt] is strictly after [now]; a record that expires at
    [now] is left out; and a later call filters the stored collection again
    with its own time. *)
Theorem getAddresses_active (now : Z) (s : state) :
  (∀ r, r ∈ fst (getAddresses false now s) ↔
        r ∈ stored s ∧ ∃ t, Date (r !! "expiresAt") = Some t ∧ now < t)
  ∧ (∀ r, Date (r !! "expiresAt") = Some now → r ∉ fst (getAddresses false now s))
  ∧ (∀ later r, r ∈ fst (getAddresses false later (snd (getAddresses false now s))) ↔
                r ∈ stored s ∧ ∃ t, Date (r !! "expiresAt") = Some t ∧ later < t).
Proof.
  assert (Hmem : ∀ t s0 r, r ∈ fst (getAddresses false t s0) ↔
            r ∈ stored s0 ∧ ∃ t', Date (r !! "expiresAt") = Some t' ∧ t < t').
  { intros t s0 r. unfold getAddresses, stored.
    destruct (_readFromFile s0) as [addresses s1]. simpl.
    by rewrite !list_elem_of_In, List.filter_In, not_expired_true. }
  split; [apply Hmem|]. split.
  - intros r Hr [_ (t & Ht & Hlt)]%Hmem. rewrite Hr in Ht. injection Ht as <-. lia.
  - intros later r. rewrite Hmem.
    replace (snd (getAddresses false now s)) with (snd (_readFromFile s))
      by (unfold getAddresses; by destruct (_readFromFile s)).
    by rewrite (proj1 (_readFromFile_stored s)).
Qed.

Lemma filter_partition_length {A} (p : A → bool) (l : list A) :
  length l = (length (List.filter (fun x => negb (p x)) l)
              + length (List.filter p l))%nat.
Proof.
  induction l as [|x l IH]; simpl; [done|]. destruct (p x); simpl; lia.
Qed.

Lemma filter_all {A} (p : A → bool) (l : list A) :
  List.filter (fun x => negb (p x)) l = [] → List.filter p l = l.
Proof.
  induction l as [|x l IH]; simpl; [done|].
  destruct (p x); simpl; [|done]. intros H. f_equal. auto.
Qed.

Lemma getAddresses_all (t : Z) (s : state) :
  fst (getAddresses true t s) = stored s.
Proof. unfold getAddresses, stored. by destruct (_readFromFile s). Qed.

(** [cleanupExpired] in terms of what is stored. *)
Lemma cleanupExpired_unfold (now : Z) (s : state) :
  cleanupExpired now s
  = (Z.of_nat (length (List.filter (fun r => negb (not_expired now r)) (stored s))),
     match List.filter (fun r => negb (not_expired now r)) (stored s) with
     | [] => snd (_readFromFile s)
     | _ :: _ => snd (_writeToFile (List.filter (not_expired now) (stored s))
                                   (snd (_readFromFile s)))
     end).
Proof.
  unfold cleanupExpired, stored. destruct (_readFromFile s) as [addresses s1].
  cbn [fst snd].
  pose proof (filter_partition_length (not_expired now) addresses) as Hlen.
  replace (Z.of_nat (length addresses)
           - Z.of_nat (length (List.filter (not_expired now) addresses)))
    with (Z.of_nat (length (List.filter (fun r => negb (not_expired now r)) addresses)))
    by lia.
  by destruct (List.filter (fun r => negb (not_expired now r)) addresses).
Qed.



End StorageProperties.

(** * Properties of the mailbox provider client *)

Section RetryProperties.
Import EmailService.
Variable this : service.
Variable apiCall : M json.
Variable options : settings.

Let N := maxRetries_of this options.
Let base := retryDelay_of this options.

Lemma attempts_failed (n : nat) (k : Z) (w w1 : world) (e : error) :
  apiCall w = (Throw e, w1) → k ≠ N →
  attempts this apiCall options (S n) k w
  = attempts this apiCall options n (k + 1)
      (snd (sleep (backoff this options k e) w1)).
Proof.
  intros Hcall Hk. simpl. rewrite Hcall.
  fold N. by rewrite (proj2 (Z.eqb_neq k N)).
Qed.

Lemma from_attempt_failed (k : Z) (w w1 : world) (e : error) :
  1 ≤ k < N → apiCall w = (Throw e, w1) →
  from_attempt this apiCall options k w
  = from_attempt this apiCall options (k + 1)
      (snd (sleep (backoff this options k e) w1)).
Proof.
  intros Hk Hcall. unfold from_attempt. fold N.
  replace (Z.to_nat (N + 1 - k)) with (S (Z.to_nat (N + 1 - (k + 1)))) by lia.
  apply attempts_failed; [done|lia].
Qed.

(** Past the last attempt the loop is over and nothing is returned. *)
Lemma from_attempt_beyond (k : Z) (w : world) :
  N < k → from_attempt this apiCall options k w = (Return JUndefined, w).
Proof.
  intros Hk. unfold from_attempt. fold N.
  by replace (Z.to_nat (N + 1 - k)) with 0%nat by lia.
Qed.

Lemma from_attempt_returned (k : Z) (w w1 : world) (v : json) :
  1 ≤ k ≤ N → apiCall w = (Return v, w1) →
  from_attempt this apiCall options k w = (Return v, w1).
Proof.
  intros Hk Hcall. unfold from_attempt. fold N.
  replace (Z.to_nat (N + 1 - k)) with (S (Z.to_nat (N - k))) by lia.
  simpl. by rewrite Hcall.
Qed.

(** C2: when attempt [k] of a retried call fails and is not the last one,
    the loop waits [retryDelay * 2^(k-1)] if the failure carries status 429
    and [retryDelay] otherwise, and then makes attempt [k+1]; a call that is
    rate limited on attempts 1 and 2 and succeeds on attempt 3, with three
    attempts allowed, succeeds, its third attempt starting right after a
    wait of twice [retryDelay]. *)
Theorem withRetry_backoff :
  (∀ k w e w1,
      1 ≤ k < N → apiCall w = (Throw e, w1) →
      from_attempt this apiCall options k w
      = from_attempt this apiCall options (k + 1)
          (snd (sleep (if rate_limited e then base * 2 ^ (k - 1) else base) w1)))
  ∧ (N = 3 →
     ∀ w e1 w1 e2 w2 v w3,
       apiCall w = (Throw e1, w1) → rate_limited e1 = true →
       apiCall (snd (sleep base w1)) = (Throw e2, w2) → rate_limited e2 = true →
       apiCall (snd (sleep (base * 2) w2)) = (Return v, w3) →
       withRetry this apiCall options w = (Return v, w3)
       ∧ last (trace (snd (sleep (base * 2) w2))) = Some (Slept (base * 2))).
Proof.
  split.
  - intros k w e w1 Hk Hcall. by apply from_attempt_failed.
  - intros HN w e1 w1 e2 w2 v w3 H1 Hr1 H2 Hr2 H3. split.
    + unfold withRetry.
      rewrite (from_attempt_failed 1 w w1 e1) by (done || lia).
      unfold backoff. rewrite Hr1. fold base.
      replace (base * 2 ^ (1 - 1)) with base by (simpl; lia).
      rewrite (from_attempt_failed (1 + 1) _ w2 e2) by (done || lia).
      unfold backoff. rewrite Hr2. fold base.
      replace (base * 2 ^ (1 + 1 - 1)) with (base * 2) by (simpl; lia).
      apply from_attempt_returned; [lia|done].
    + simpl. apply last_snoc.
Qed.



Lemma attempts_throws_plain (n : nat) (k : Z) (w w' : world) (e : error) :
  attempts this apiCall options n k w = (Throw e, w') → response e = None.
Proof.
  revert k w. induction n as [|n IH]; intros k w; simpl; [by intros [=]|].
  destruct (apiCall w) as [[v|e0] w1]; [by intros [=]|].
  destruct (k =? maxRetries_of this options); [by intros [= <- _]|]. apply IH.
Qed.

(** Whatever the retried operation throws, [withRetry] throws an [Error] of
    its own, which carries no response. *)
Lemma withRetry_throws_plain (w w' : world) (e : error) :
  withRetry this apiCall options w = (Throw e, w') → response e = None.
Proof. apply attempts_throws_plain. Qed.

End RetryProperties.

Section ClientProperties.
Import EmailService.
Local Open Scope js_scope.

Lemma withRetry_backoff_witness :
  withRetry default_service delete_message no_settings limited_twice
  = (Return (JBool true),
     World None []
       [Sent (Request "DELETE" "/messages/m1" JUndefined (Some "Bearer tok"));
        Slept 1000;
        Sent (Request "DELETE" "/messages/m1" JUndefined (Some "Bearer tok"));
        Slept 2000;
        Sent (Request "DELETE" "/messages/m1" JUndefined (Some "Bearer tok"))]).
Proof.
  edestruct (proj2 (withRetry_backoff default_service delete_message no_settings)
               eq_refl limited_twice) as [H _]; [reflexivity..|exact H].
Defined.


Lemma getAvailableDomain_throws_plain (this : service) (w w' : world) (e : error) :
  getAvailableDomain this w = (Throw e, w') → response e = None.
Proof.
  unfold getAvailableDomain, try_catch, throw.
  destruct (withRetry _ _ _ w) as [[v|e0] w1]; by intros [= <- _].
Qed.

(** No failure of [createEmailAddress] is told apart by its status: the
    errors that reach its [catch] block carry no response, so each is
    reported as a network error. *)
Lemma createEmailAddress_failure (this : service) (rnd : nat → Q)
    (password : option string) (w w' : world) (e : error) :
  createEmailAddress this rnd password w = (Throw e, w') →
  ∃ underlying, e = new_Error (describe (NetworkError underlying)).
Proof.
  unfold createEmailAddress, try_catch at 1.
  match goal with |- context [bind ?c ?k w] => destruct (bind c k w) as [[v|e0] w1] eqn:Hbody end;
    [by intros [=]|].
  assert (He0 : response e0 = None).
  { unfold bind in Hbody.
    destruct (getAvailableDomain this w) as [[domain|e1] w2] eqn:Hdom.
    - destruct (negb (truthy domain)).
      + by injection Hbody as <- _.
      + by apply withRetry_throws_plain in Hbody.
    - injection Hbody as <- _. by apply getAvailableDomain_throws_plain in Hdom. }
  unfold throw. intros [= <- _]. exists (message e0).
  unfold classify. by rewrite He0.
Qed.

(** C3, at a provider that rejects every account with status 422: the call
    fails with the network error message around the exhausted-retries
    message, where the claim has the invalid address format. *)
Theorem createEmailAddress_status_not_mapped :
  fst (createEmailAddress default_service half None rejecting_accounts)
  = Throw (new_Error (describe (NetworkError
      "Operation failed after 5 attempts: Request failed with status code 422")))
  ∧ classify (Error "Request failed with status code 422" (Some (Response 422 JNull)))
    = InvalidAddressFormat.
Proof. split; vm_compute; reflexivity. Qed.

Lemma Qfloor_scaled (r : Q) (n : Z) :
  Qfloor (r * inject_Z n) = (Qnum r * n) / Z.pos (Qden r).
Proof. destruct r as [p q]. unfold Qfloor, Qmult, inject_Z. simpl. by rewrite Pos.mul_1_r. Qed.

Lemma Qfloor_unit_range (r : Q) (n : Z) :
  0 < n → (0 <= r < 1)%Q → 0 ≤ Qfloor (r * inject_Z n) < n.
Proof.
  intros Hn [Hlo Hhi]. rewrite Qfloor_scaled. destruct r as [p q].
  unfold Qle, Qlt in *. simpl in *. split.
  - apply Z.div_pos; nia.
  - apply Z.div_lt_upper_bound; nia.
Qed.

Lemma Qfloor_interval (r : Q) (n j : Z) :
  0 < n → (Qfloor (r * inject_Z n) = j ↔ (j # Z.to_pos n <= r < (j + 1) # Z.to_pos n)%Q).
Proof.
  intros Hn. rewrite Qfloor_scaled. destruct r as [p q].
  unfold Qle, Qlt. simpl. rewrite Z2Pos.id by done. split.
  - intros <-. pose proof (Z.mul_div_le (p * n) (Z.pos q)).
    pose proof (Z.mul_succ_div_gt (p * n) (Z.pos q)). nia.
  - intros [Hlo Hhi]. symmetry. apply (Z.div_unique _ _ _ (p * n - j * Z.pos q)); lia.
Qed.

Lemma fromCharCode_lowercase (j : Z) :
  0 ≤ j < 26 → lowercase (fromCharCode (97 + j)) = true.
Proof.
  intros Hj. unfold lowercase, fromCharCode.
  rewrite N_ascii_embedding by lia.
  apply andb_true_iff. split; apply N.leb_le; lia.
Qed.

Lemma String_length_of_list (l : list ascii) :
  String.length (string_of_list_ascii l) = length l.
Proof. induction l; simpl; congruence. Qed.

(** C7: whatever [Math.random] returns, the local part is made of lowercase
    ASCII letters only and has between 12 and 16 of them (it matches
    [^[a-z]{12,16}$]); its length is [n] exactly when the first outcome
    falls in the fifth of the unit interval that starts at [(n-12)/5], so
    the five lengths are equally likely under a uniform outcome. *)
Theorem generateUsername_lowercase (rnd : nat → Q) :
  (∀ i, (0 <= rnd i < 1)%Q) →
  matches_local_part (generateUsername rnd) = true
  ∧ (∀ n, 12 ≤ n ≤ 16 →
          Z.of_nat (String.length (generateUsername rnd)) = n
          ↔ ((n - 12) # 5 <= rnd 0%nat < (n - 11) # 5)%Q).
Proof.
  intros Hrnd. unfold generateUsername, matches_local_part.
  rewrite String_length_of_list, list_ascii_of_string_of_list_ascii.
  rewrite length_map, length_seq.
  pose proof (Qfloor_unit_range (rnd 0%nat) 5 eq_refl (Hrnd 0%nat)) as Hlen.
  change (rnd 0%nat * 5)%Q with (rnd 0%nat * inject_Z 5)%Q.
  split.
  - apply andb_true_iff. split.
    + apply andb_true_iff. split; apply Nat.leb_le; lia.
    + apply forallb_forall. intros c [i [<- _]]%in_map_iff.
      change (rnd (S i) * 26)%Q with (rnd (S i) * inject_Z 26)%Q.
      apply fromCharCode_lowercase. by apply Qfloor_unit_range.
  - intros n Hn. rewrite Z2Nat.id by lia.
    pose proof (Qfloor_interval (rnd 0%nat) 5 (n - 12) eq_refl) as Hfifth.
    change (Z.to_pos 5) with 5%positive in Hfifth.
    replace (n - 11) with (n - 12 + 1) by lia.
    rewrite <- Hfifth. lia.
Qed.

Lemma generateUsername_lowercase_witness :
  matches_local_part (generateUsername half) = true
  ∧ (∀ n, 12 ≤ n ≤ 16 →
          Z.of_nat (String.length (generateUsername half)) = n
          ↔ ((n - 12) # 5 <= half 0%nat < (n - 11) # 5)%Q).
Proof.
  apply (generateUsername_lowercase half). intros i. unfold half.
  split; [by vm_compute|reflexivity].
Defined.

(** What one request does to the world. *)
Lemma send_world (method url : string) (body : json) (auth : option string) (w : world) :
  authorization (snd (send method url body auth w)) = authorization w
  ∧ provider (snd (send method url body auth w)) = tail (provider w)
  ∧ trace (snd (send method url body auth w))
    = trace w ++ [Sent (Request method url body
                          (match auth with Some h => Some h | None => authorization w end))].
Proof.
  unfold send. destruct (provider w) as [|[r|reason] rest]; simpl; [done| |done].
  by destruct ((200 <=? status r) && (status r <? 300)).
Qed.

Lemma send_returns (method url : string) (body : json) (auth : option string)
    (w w1 : world) (r : http_response) :
  send method url body auth w = (Return r, w1) →
  ∃ rest, provider w = Answer r :: rest ∧ 200 ≤ status r < 300.
Proof.
  unfold send. destruct (provider w) as [|[r0|reason] rest]; [by intros [=]| |by intros [=]].
  destruct ((200 <=? status r0) && (status r0 <? 300)) eqn:Hok; [|by intros [=]].
  intros [= <- _]. exists rest. split; [done|].
  apply andb_true_iff in Hok as [?%Z.leb_le ?%Z.ltb_lt]. lia.
Qed.

(** The shape shared by [getEmails] and [getEmailContent]: authenticate, set
    the header, fetch, clear the header, and build the result without
    touching the world again. *)
Lemma authenticated_fetch (address password url prefix : string)
    (finish : http_response → completion json) (w w' : world) (c : completion json) :
  try_catch
    (let* authResponse := send "POST" "/token" (credentials address password) None in
     let* token := run (prop "token" (data authResponse)) in
     setAuthToken token then*
     let* response := send "GET" url JUndefined None in
     clearAuthToken then*
     run (finish response))
    (fun error => clearAuthToken then* throw (new_Error (prefix +:+ message error))) w
  = (c, w') →
  let token_request :=
    Sent (Request "POST" "/token" (credentials address password) (authorization w)) in
  authorization w' = None
  ∧ (trace w' = trace w ++ [token_request]
     ∨ ∃ r rest token,
         provider w = Answer r :: rest ∧ 200 ≤ status r < 300
         ∧ prop "token" (data r) = Return token
         ∧ trace w'
           = trace w ++ [token_request;
                         Sent (Request "GET" url JUndefined
                                 (Some ("Bearer " +:+ to_String token)))]).
Proof.
  intros Hcall token_request. unfold try_catch, bind in Hcall.
  destruct (send_world "POST" "/token" (credentials address password) None w)
    as (Ha1 & Hp1 & Ht1).
  destruct (send "POST" "/token" (credentials address password) None w)
    as [[authResponse|e] w1] eqn:Hsend; simpl in Ha1, Hp1, Ht1.
  2:{ injection Hcall as _ <-. by split; [|left]. }
  apply send_returns in Hsend as (rest & Hprov & Hok).
  unfold run at 1 in Hcall.
  destruct (prop "token" (data authResponse)) as [token|e] eqn:Htoken.
  2:{ injection Hcall as _ <-. by split; [|left]. }
  unfold setAuthToken in Hcall.
  match type of Hcall with context [send "GET" url JUndefined None ?w2] =>
    destruct (send_world "GET" url JUndefined None w2) as (Ha2 & Hp2 & Ht2);
    destruct (send "GET" url JUndefined None w2) as [[response|e] w3]
  end; simpl in Ha2, Hp2, Ht2.
  - unfold clearAuthToken, run in Hcall.
    assert (w' = World None (provider w3) (trace w3)) as ->
      by (destruct (finish response); by injection Hcall as _ <-).
    split; [done|]. right. exists authResponse, rest, token.
    repeat (split; [done|]). simpl. rewrite Ht2, Ht1. by rewrite <- app_assoc.
  - injection Hcall as _ <-. split; [done|]. right. exists authResponse, rest, token.
    repeat (split; [done|]). simpl. rewrite Ht2, Ht1. by rewrite <- app_assoc.
Qed.

(** C8: [getEmails] and [getEmailContent] leave no [Authorization] entry in
    the default headers, whether they return or fail and whatever entry they
    found; the request they make after authenticating carries the bearer
    token of the token response, and no request is made after it. *)
Theorem authorization_cleared (messageId address password : string) (w : world) :
  let token_request :=
    Sent (Request "POST" "/token" (credentials address password) (authorization w)) in
  (authorization (snd (getEmails address password w)) = None
   ∧ (trace (snd (getEmails address password w)) = trace w ++ [token_request]
      ∨ ∃ r rest token,
          provider w = Answer r :: rest ∧ 200 ≤ status r < 300
          ∧ prop "token" (data r) = Return token
          ∧ trace (snd (getEmails address password w))
            = trace w ++ [token_request;
                          Sent (Request "GET" "/messages?page=1&limit=20" JUndefined
                                  (Some ("Bearer " +:+ to_String token)))]))
  ∧ (authorization (snd (getEmailContent messageId address password w)) = None
     ∧ (trace (snd (getEmailContent messageId address password w))
        = trace w ++ [token_request]
        ∨ ∃ r rest token,
            provider w = Answer r :: rest ∧ 200 ≤ status r < 300
            ∧ prop "token" (data r) = Return token
            ∧ trace (snd (getEmailContent messageId address password w))
              = trace w ++ [token_request;
                            Sent (Request "GET" ("/messages/" +:+ messageId) JUndefined
                                    (Some ("Bearer " +:+ to_String token)))])).
Proof.
  split.
  - destruct (getEmails address password w) as [c w'] eqn:Hcall.
    apply (authenticated_fetch address password "/messages?page=1&limit=20"
             "Failed to fetch emails: " (fun response => summaries (data response))
             w w' c Hcall).
  - destruct (getEmailContent messageId address password w) as [c w'] eqn:Hcall.
    apply (authenticated_fetch address password ("/messages/" +:+ messageId)
             "Failed to fetch email content: "
             (fun response => if negb (truthy (data response))
                              then Throw (new_Error "Invalid response from server")
                              else content (data response))
             w w' c Hcall).
Qed.

(** A body that is not an object with an array under [hydra:member] yields
    no messages. *)
Lemma summaries_empty (d : json) :
  (∀ fields msgs, d = JObj fields → own_property "hydra:member" fields ≠ JArr msgs) →
  summaries d = Return (JArr []).
Proof.
  intros Hshape. unfold summaries.
  destruct d as [| |b|n|s|items|fields]; simpl; try done.
  - by destruct b.
  - by destruct (negb (n =? 0)).
  - by destruct (negb (String.eqb s "")).
  - specialize (Hshape fields). destruct (own_property "hydra:member" fields); try done.
    by destruct (Hshape items).
Qed.

(** C9: when the token request is answered with a 2xx reply whose body can
    be read for its token, and the list request with a 2xx reply whose body
    is not an object with an array under [hydra:member], [getEmails] returns
    the empty array. *)
Theorem getEmails_malformed_list (address password : string) (w : world)
    (auth listing : http_response) (rest : list reply) (token : json) :
  provider w = Answer auth :: Answer listing :: rest →
  200 ≤ status auth < 300 →
  prop "token" (data auth) = Return token →
  200 ≤ status listing < 300 →
  (∀ fields msgs, data listing = JObj fields →
                  own_property "hydra:member" fields ≠ JArr msgs) →
  fst (getEmails address password w) = Return (JArr []).
Proof.
  intros Hprov Hauth Htoken Hlisting Hshape.
  unfold getEmails, try_catch, bind, send, run, setAuthToken, clearAuthToken.
  rewrite Hprov.
  replace ((200 <=? status auth) && (status auth <? 300)) with true
    by (symmetry; apply andb_true_iff; split; [apply Z.leb_le|apply Z.ltb_lt]; lia).
  rewrite Htoken. simpl.
  replace ((200 <=? status listing) && (status listing <? 300)) with true
    by (symmetry; apply andb_true_iff; split; [apply Z.leb_le|apply Z.ltb_lt]; lia).
  by rewrite summaries_empty.
Qed.

Lemma getEmails_malformed_list_witness :
  fst (getEmails "a@example.com" "secret" no_members) = Return (JArr []).
Proof.
  apply (getEmails_malformed_list "a@example.com" "secret" no_members
           (Response 200 (JObj [("token", JStr "tok")]))
           (Response 200 (JObj [("hydra:member", JStr "none")])) [] (JStr "tok")).
  - reflexivity.
  - simpl. lia.
  - reflexivity.
  - simpl. lia.
  - intros fields msgs [= <-]. simpl. discriminate.
Defined.

(** C10: [deleteEmail] and [deleteAccount] called with a falsy id or a falsy
    token fail at once with the error that the id and the token are
    required; the world is unchanged: no request is sent, no wait is made. *)
Theorem delete_requires_id_and_token (this : service) (id token : json) (w : world) :
  truthy id = false ∨ truthy token = false →
  deleteEmail this id token w
  = (Throw (new_Error "Failed to delete email: Email ID and token are required"), w)
  ∧ deleteAccount this id token w
    = (Throw (new_Error "Failed to delete account: Account ID and token are required"), w).
Proof.
  intros Hfalsy. unfold deleteEmail, deleteAccount, try_catch.
  assert (negb (truthy id) || negb (truthy token) = true) as ->
    by (destruct Hfalsy as [-> | ->]; [done|by destruct (truthy id)]).
  done.
Qed.

Lemma delete_requires_id_and_token_witness :
  deleteEmail default_service (JStr "") (JStr "tok") limited_always
  = (Throw (new_Error "Failed to delete email: Email ID and token are required"),
     limited_always)
  ∧ deleteAccount default_service (JStr "") (JStr "tok") limited_always
    = (Throw (new_Error "Failed to delete account: Account ID and token are required"),
       limited_always).
Proof.
  apply (delete_requires_id_and_token default_service (JStr "") (JStr "tok")).
  left. reflexivity.
Defined.

End ClientProperties.

(** * Further properties of the address store *)

Section StorageOperations.
Import StorageService.

Lemma _readFromFile_again (s : state) :
  _readFromFile (snd (_readFromFile s)) = (stored s, snd (_readFromFile s)).
Proof.
  unfold stored, _readFromFile, _initialize, _writeToFile.
  destruct s as [[l|] [] []]; reflexivity.
Qed.

Lemma _readFromFile_pair (s : state) :
  _readFromFile s = (stored s, snd (_readFromFile s)).
Proof. unfold stored. by destruct (_readFromFile s). Qed.

Lemma _writeToFile_failed (l : list record) (s : state) :
  writable s = false → _writeToFile l s = (false, s).
Proof. intros Hw. unfold _writeToFile. by rewrite Hw. Qed.

(** What a successful [saveAddress] leaves in the file. *)
Lemma saveAddress_stored (days now : Z) (address : string) (metadata : record)
    (s : state) :
  writable s = true →
  ∃ s',
    saveAddress days now address metadata s = (true, s')
    ∧ stored s'
      = match findIndex (has_address address) (stored s) with
        | Some i =>
            <[i := spread (default ∅ (stored s !! i))
                          (savedData days now address metadata)]> (stored s)
        | None =>
            stored s ++ [<["createdAt" := VTime now]>
                           (savedData days now address metadata)]
        end.
Proof.
  intros Hw. destruct (_readFromFile_stored s) as [_ Hw1]. rewrite Hw in Hw1.
  unfold saveAddress. rewrite _readFromFile_pair. fold (savedData days now address metadata).
  destruct (findIndex (has_address address) (stored s)) as [i|].
  - destruct (_writeToFile_ok (<[i := spread (default ∅ (stored s !! i))
        (savedData days now address metadata)]> (stored s)) _ Hw1) as (s' & -> & _ & Hs').
    by exists s'.
  - destruct (_writeToFile_ok (stored s ++ [<["createdAt" := VTime now]>
        (savedData days now address metadata)]) _ Hw1) as (s' & -> & _ & Hs').
    by exists s'.
Qed.

Lemma getAddressMetadata_find (address : string) (s : state) :
  fst (getAddressMetadata address s) = List.find (has_address address) (stored s).
Proof. unfold getAddressMetadata. by rewrite _readFromFile_pair. Qed.

Lemma find_findIndex {A} (p : A → bool) (l : list A) :
  List.find p l = match findIndex p l with
                  | Some i => l !! i
                  | None => None
                  end.
Proof.
  induction l as [|x l IH]; simpl; [done|]. destruct (p x); [done|].
  rewrite IH. by destruct (findIndex p l).
Qed.

Lemma find_middle {A} (p : A → bool) (l1 l2 : list A) (y : A) :
  List.filter p l1 = [] → p y = true → List.find p (l1 ++ y :: l2) = Some y.
Proof.
  intros Hl1 Hy. induction l1 as [|x l1 IH]; simpl in *; [by rewrite Hy|].
  destruct (p x); [done|]. auto.
Qed.

Lemma find_None_filter {A} (p : A → bool) (l : list A) :
  List.find p l = None ↔ List.filter p l = [].
Proof.
  induction l as [|x l IH]; simpl; [done|]. by destruct (p x).
Qed.

Lemma savedData_lookup (days now : Z) (address : string) (metadata : record)
    (k : string) :
  savedData days now address metadata !! k
  = if decide (k = "updatedAt") then Some (VTime now)
    else if decide (k = "expiresAt") then Some (VTime (now + days * msPerDay))
    else match metadata !! k with
         | Some v => Some v
         | None => if decide (k = "address") then Some (VStr address) else None
         end.
Proof.
  unfold savedData. destruct (decide (k = "updatedAt")) as [->|Hu].
  { by rewrite lookup_insert_eq. }
  rewrite lookup_insert_ne by done. destruct (decide (k = "expiresAt")) as [->|He].
  { by rewrite lookup_insert_eq. }
  rewrite lookup_insert_ne by done. destruct (metadata !! k) as [v|] eqn:Hk.
  { by apply spread_Some. }
  rewrite spread_None by done. destruct (decide (k = "address")) as [->|Ha].
  - by rewrite lookup_singleton_eq.
  - by rewrite lookup_singleton_ne.
Qed.

(** The record found under the address after a successful save. *)
Lemma saveAddress_found (days now : Z) (address : string) (metadata : record)
    (s : state) :
  writable s = true →
  (metadata !! "address" = None ∨ metadata !! "address" = Some (VStr address)) →
  ∃ s',
    saveAddress days now address metadata s = (true, s')
    ∧ fst (getAddressMetadata address s')
      = Some (match fst (getAddressMetadata address s) with
              | Some old => spread old (savedData days now address metadata)
              | None => <["createdAt" := VTime now]>
                          (savedData days now address metadata)
              end).
Proof.
  intros Hw Hmeta. destruct (saveAddress_stored days now address metadata s Hw)
    as (s' & Hsave & Hs').
  exists s'. split; [done|]. rewrite !getAddressMetadata_find, Hs'.
  assert (Haddr : savedData days now address metadata !! "address" = Some (VStr address)).
  { rewrite savedData_lookup. repeat case_decide; try done.
    by destruct Hmeta as [-> | ->]. }
  rewrite (find_findIndex _ (stored s)).
  destruct (findIndex (has_address address) (stored s)) as [i|] eqn:Hidx.
  - apply findIndex_Some in Hidx as (l1 & x & l2 & Hl & <- & Hx & Hl1).
    rewrite Hl. rewrite list_lookup_middle by done. simpl.
    rewrite insert_app_r_alt, Nat.sub_diag by lia. simpl.
    apply find_middle; [done|]. apply has_address_true. by apply spread_Some.
  - apply findIndex_None in Hidx. rewrite <- (app_nil_r (_ ++ [_])), <- app_assoc.
    apply find_middle; [done|]. apply has_address_true. by rewrite lookup_insert_ne.
Qed.

(** X1: what is saved can be read back.  After a successful save whose
    metadata does not rename the record, [getAddressMetadata] finds a record
    with the address that has every property of the metadata (but for
    [expiresAt] and [updatedAt], which the store computes, and for
    [createdAt] on a first save) and, on an update, every other property of
    the record that was stored before. *)
Theorem save_then_get (days now : Z) (address : string) (metadata : record)
    (s : state) :
  writable s = true →
  (metadata !! "address" = None ∨ metadata !! "address" = Some (VStr address)) →
  ∃ s' r,
    saveAddress days now address metadata s = (true, s')
    ∧ fst (getAddressMetadata address s') = Some r
    ∧ r !! "address" = Some (VStr address)
    ∧ (∀ k v, metadata !! k = Some v → k ≠ "expiresAt" → k ≠ "updatedAt" →
              (k = "createdAt" → fst (getAddressMetadata address s) ≠ None) →
              r !! k = Some v)
    ∧ (∀ old k, fst (getAddressMetadata address s) = Some old →
                metadata !! k = None →
                k ≠ "address" → k ≠ "expiresAt" → k ≠ "updatedAt" →
                r !! k = old !! k).
Proof.
  intros Hw Hmeta.
  destruct (saveAddress_found days now address metadata s Hw Hmeta) as (s' & Hsave & Hget).
  eexists s', _. split; [done|]. split; [exact Hget|].
  assert (Haddr : savedData days now address metadata !! "address" = Some (VStr address)).
  { rewrite savedData_lookup. repeat case_decide; try done.
    by destruct Hmeta as [-> | ->]. }
  assert (Hkeep : ∀ k v, metadata !! k = Some v → k ≠ "expiresAt" → k ≠ "updatedAt" →
            savedData days now address metadata !! k = Some v).
  { intros k v Hk He Hu. rewrite savedData_lookup, Hk. by repeat case_decide. }
  destruct (fst (getAddressMetadata address s)) as [old|].
  - split; [by apply spread_Some|]. split.
    + intros k v Hk He Hu _. apply spread_Some. by apply Hkeep.
    + intros old' k [= <-] Hk Ha He Hu. apply spread_None.
      rewrite savedData_lookup, Hk. by repeat case_decide.
  - split; [by rewrite lookup_insert_ne|]. split; [|done].
    intros k v Hk He Hu Hc. rewrite lookup_insert_ne by (intros <-; by apply Hc).
    by apply Hkeep.
Qed.

Lemma save_then_get_witness :
  ∃ s' r,
    saveAddress 7 2000 "a@example.com" {["id" := VStr "abc"]} saved_once = (true, s')
    ∧ fst (getAddressMetadata "a@example.com" s') = Some r
    ∧ r !! "address" = Some (VStr "a@example.com")
    ∧ (∀ k v, ({["id" := VStr "abc"]} : record) !! k = Some v →
              k ≠ "expiresAt" → k ≠ "updatedAt" →
              (k = "createdAt" → fst (getAddressMetadata "a@example.com" saved_once) ≠ None) →
              r !! k = Some v)
    ∧ (∀ old k, fst (getAddressMetadata "a@example.com" saved_once) = Some old →
                ({["id" := VStr "abc"]} : record) !! k = None →
                k ≠ "address" → k ≠ "expiresAt" → k ≠ "updatedAt" →
                r !! k = old !! k).
Proof.
  apply (save_then_get 7 2000 "a@example.com" {["id" := VStr "abc"]} saved_once).
  - reflexivity.
  - left. vm_compute. reflexivity.
Defined.

(** X2: [getAddressMetadata] answers not-found exactly when no stored record
    carries the address; otherwise it answers the first stored record that
    carries it; in both cases what is stored stays as it was. *)
Theorem getAddressMetadata_lookup (address : string) (s : state) :
  (fst (getAddressMetadata address s) = None ↔
   ∀ r, r ∈ stored s → r !! "address" ≠ Some (VStr address))
  ∧ (∀ r, fst (getAddressMetadata address s) = Some r →
          ∃ before rest, stored s = before ++ r :: rest
                         ∧ r !! "address" = Some (VStr address)
                         ∧ ∀ r0, r0 ∈ before → r0 !! "address" ≠ Some (VStr address))
  ∧ stored (snd (getAddressMetadata address s)) = stored s.
Proof.
  split; [|split].
  - rewrite getAddressMetadata_find. split.
    + intros Hnone r Hr Ha. apply list_elem_of_In in Hr.
      apply (List.find_none _ _ Hnone) in Hr. apply has_address_true in Ha. congruence.
    + intros Hall. destruct (List.find _ _) as [r|] eqn:Hfind; [|done].
      apply List.find_some in Hfind as [Hr Ha]. apply list_elem_of_In in Hr.
      apply has_address_true in Ha. by destruct (Hall r Hr).
  - intros r. rewrite getAddressMetadata_find, find_findIndex.
    destruct (findIndex _ _) as [i|] eqn:Hidx; [|done].
    apply findIndex_Some in Hidx as (l1 & x & l2 & Hl & <- & Hx & Hl1).
    rewrite Hl, list_lookup_middle by done. intros [= <-].
    exists l1, l2. split; [done|]. split; [by apply has_address_true|].
    intros r0 Hr0 Ha. apply has_address_true in Ha. apply list_elem_of_In in Hr0.
    assert (In r0 (List.filter (has_address address) l1)) as Hin
      by by apply List.filter_In.
    by rewrite Hl1 in Hin.
  - unfold getAddressMetadata. rewrite _readFromFile_pair. simpl.
    apply _readFromFile_stored.
Qed.

Lemma getAddressMetadata_lookup_witness :
  ∃ before rest,
    stored three_saved
    = before ++ {["address" := VStr "b@example.com"; "expiresAt" := VTime 5000]} :: rest
    ∧ ({["address" := VStr "b@example.com"; "expiresAt" := VTime 5000]} : record)
        !! "address" = Some (VStr "b@example.com")
    ∧ ∀ r0, r0 ∈ before → r0 !! "address" ≠ Some (VStr "b@example.com").
Proof.
  apply (getAddressMetadata_lookup "b@example.com" three_saved).
  vm_compute. reflexivity.
Defined.

Lemma filter_negb_length {A} (p : A → bool) (l : list A) :
  length (List.filter (fun x => negb (p x)) l) = length l ↔ List.filter p l = [].
Proof.
  pose proof (filter_partition_length p l) as Hlen. split.
  - intros H. destruct (List.filter p l); [done|simpl in Hlen; lia].
  - intros H. rewrite H in Hlen. simpl in Hlen. lia.
Qed.

Lemma with_address_without (a b : string) (l : list record) :
  with_address b (List.filter (fun item => negb (has_address a item)) l)
  = if decide (a = b) then [] else with_address b l.
Proof.
  unfold with_address. induction l as [|x l IH]; simpl; [by case_decide|].
  destruct (has_address a x) eqn:Ha; simpl.
  - rewrite IH. case_decide as Hab; [done|].
    by rewrite (has_address_other a b x).
  - rewrite IH. case_decide as Hab; [|done]. subst b. by rewrite Ha.
Qed.

(** X3: [removeAddress] of an address that no record carries answers false
    and leaves the collection as it was; of an address that is stored, on a
    writable file, it answers true and removes every record that carries the
    address and no other record, so that the address is no longer found. *)
Theorem removeAddress_effect (address : string) (s : state) :
  (fst (getAddressMetadata address s) = None →
   fst (removeAddress address s) = false
   ∧ stored (snd (removeAddress address s)) = stored s)
  ∧ (fst (getAddressMetadata address s) ≠ None → writable s = true →
     fst (removeAddress address s) = true
     ∧ stored (snd (removeAddress address s))
       = List.filter (fun item => negb (has_address address item)) (stored s)
     ∧ fst (getAddressMetadata address (snd (removeAddress address s))) = None
     ∧ ∀ other, other ≠ address →
         with_address other (stored (snd (removeAddress address s)))
         = with_address other (stored s)).
Proof.
  destruct (_readFromFile_stored s) as [Hst Hw1].
  rewrite getAddressMetadata_find, find_None_filter.
  unfold removeAddress. rewrite _readFromFile_pair.
  pose proof (filter_negb_length (has_address address) (stored s)) as Hlen.
  split.
  - intros Hnone. apply Hlen in Hnone. rewrite Hnone, Nat.eqb_refl. by simpl.
  - intros Hsome Hw. rewrite Hw in Hw1.
    destruct (length _ =? length (stored s))%nat eqn:Heq.
    { apply Nat.eqb_eq, Hlen in Heq. done. }
    destruct (_writeToFile_ok (List.filter (fun item => negb (has_address address item))
                (stored s)) _ Hw1) as (s' & -> & _ & Hs').
    cbn [fst snd]. rewrite Hs'. split; [done|]. split; [done|]. split.
    + rewrite getAddressMetadata_find, find_None_filter, Hs'.
      fold (with_address address (List.filter (fun item => negb (has_address address item))
                                    (stored s))).
      rewrite with_address_without. by case_decide.
    + intros other Hne. rewrite with_address_without. by case_decide.
Qed.

Lemma removeAddress_effect_witness :
  fst (removeAddress "b@example.com" three_saved) = true
  ∧ stored (snd (removeAddress "b@example.com" three_saved))
    = List.filter (fun item => negb (has_address "b@example.com" item)) (stored three_saved)
  ∧ fst (getAddressMetadata "b@example.com" (snd (removeAddress "b@example.com" three_saved)))
    = None
  ∧ ∀ other, other ≠ "b@example.com" →
      with_address other (stored (snd (removeAddress "b@example.com" three_saved)))
      = with_address other (stored three_saved).
Proof.
  apply (removeAddress_effect "b@example.com" three_saved).
  - vm_compute. discriminate.
  - reflexivity.
Defined.

(** X4: when the file cannot be written no operation changes what is
    stored; [saveAddress] and [removeAddress] then answer false, while
    [cleanupExpired] still answers the number of expired records, none of
    which it has removed. *)
Theorem unwritable_store (days now : Z) (address : string) (metadata : record)
    (s : state) :
  writable s = false →
  (fst (saveAddress days now address metadata s) = false
   ∧ stored (snd (saveAddress days now address metadata s)) = stored s)
  ∧ (fst (removeAddress address s) = false
     ∧ stored (snd (removeAddress address s)) = stored s)
  ∧ (fst (cleanupExpired now s)
     = Z.of_nat (length (List.filter (fun r => negb (not_expired now r)) (stored s)))
     ∧ stored (snd (cleanupExpired now s)) = stored s).
Proof.
  intros Hw. destruct (_readFromFile_stored s) as [Hst Hw1]. rewrite Hw in Hw1.
  split; [|split].
  - unfold saveAddress. rewrite _readFromFile_pair.
    destruct (findIndex _ _); by rewrite _writeToFile_failed.
  - unfold removeAddress. rewrite _readFromFile_pair.
    destruct (_ =? _)%nat; [done|]. by rewrite _writeToFile_failed.
  - rewrite cleanupExpired_unfold. simpl. split; [done|].
    destruct (List.filter _ _); [done|]. by rewrite _writeToFile_failed.
Qed.

Lemma unwritable_store_witness :
  (fst (saveAddress 7 1000 "a@example.com" ∅ (State None false false)) = false
   ∧ stored (snd (saveAddress 7 1000 "a@example.com" ∅ (State None false false)))
     = stored (State None false false))
  ∧ (fst (removeAddress "a@example.com" (State None false false)) = false
     ∧ stored (snd (removeAddress "a@example.com" (State None false false)))
       = stored (State None false false))
  ∧ (fst (cleanupExpired 1000 (State None false false))
     = Z.of_nat (length (List.filter (fun r => negb (not_expired 1000 r))
                           (stored (State None false false))))
     ∧ stored (snd (cleanupExpired 1000 (State None false false)))
       = stored (State None false false)).
Proof.
  apply (unwritable_store 7 1000 "a@example.com" ∅ (State None false false)).
  reflexivity.
Defined.

(** X5: a successful [saveAddress] updates in place.  When the address was
    not found the new record is appended after the stored ones; when it was
    found the collection keeps its length and every position but one keeps
    its record. *)
Theorem saveAddress_in_place (days now : Z) (address : string) (metadata : record)
    (s : state) :
  writable s = true →
  ∃ s',
    saveAddress days now address metadata s = (true, s')
    ∧ (fst (getAddressMetadata address s) = None →
       ∃ r, stored s' = stored s ++ [r])
    ∧ (fst (getAddressMetadata address s) ≠ None →
       length (stored s') = length (stored s)
       ∧ ∃ i, ∀ j, j ≠ i → stored s' !! j = stored s !! j).
Proof.
  intros Hw. destruct (saveAddress_stored days now address metadata s Hw)
    as (s' & Hsave & Hs').
  exists s'. split; [done|]. rewrite getAddressMetadata_find, find_findIndex, Hs'.
  destruct (findIndex (has_address address) (stored s)) as [i|] eqn:Hidx.
  - split.
    + apply findIndex_Some in Hidx as (l1 & x & l2 & Hl & <- & _).
      rewrite Hl, list_lookup_middle by done. done.
    + intros _. split; [apply length_insert|]. exists i. intros j Hj.
      by apply list_lookup_insert_ne.
  - split; [eauto|done].
Qed.

Lemma saveAddress_in_place_witness :
  ∃ s',
    saveAddress 7 2000 "a@example.com" ∅ saved_once = (true, s')
    ∧ (fst (getAddressMetadata "a@example.com" saved_once) = None →
       ∃ r, stored s' = stored saved_once ++ [r])
    ∧ (fst (getAddressMetadata "a@example.com" saved_once) ≠ None →
       length (stored s') = length (stored saved_once)
       ∧ ∃ i, ∀ j, j ≠ i → stored s' !! j = stored saved_once !! j).
Proof.
  apply (saveAddress_in_place 7 2000 "a@example.com" ∅ saved_once). reflexivity.
Defined.

Lemma getAddresses_member (now : Z) (s : state) (r : record) :
  r ∈ fst (getAddresses false now s) ↔
  r ∈ stored s ∧ ∃ t, Date (r !! "expiresAt") = Some t ∧ now < t.
Proof.
  unfold getAddresses. rewrite _readFromFile_pair. simpl.
  by rewrite !list_elem_of_In, List.filter_In, not_expired_true.
Qed.



Lemma _readFromFile_initialized (s : state) :
  initialized (snd (_readFromFile s)) = true.
Proof. unfold _readFromFile, _initialize. by destruct s as [[l|] [] []]. Qed.

Lemma _readFromFile_done (s : state) :
  initialized s = true → _readFromFile s = (stored s, s).
Proof. intros Hi. unfold stored, _readFromFile. by rewrite Hi. Qed.

Lemma not_expired_earlier (now later : Z) (r : record) :
  now ≤ later → not_expired later r = true → not_expired now r = true.
Proof.
  intros Hle. rewrite !not_expired_true. intros (t & Ht & Hlt). exists t.
  split; [done|lia].
Qed.

Lemma filter_later (now later : Z) (l : list record) :
  now ≤ later →
  List.filter (not_expired later) (List.filter (not_expired now) l)
  = List.filter (not_expired later) l.
Proof.
  intros Hle. induction l as [|r l IH]; simpl; [done|].
  destruct (not_expired now r) eqn:Hnow; simpl.
  - by rewrite IH.
  - destruct (not_expired later r) eqn:Hlater; [|done].
    apply (not_expired_earlier now later r Hle) in Hlater. congruence.
Qed.

Lemma filter_none_left {A} (p : A → bool) (l : list A) :
  List.filter (fun x => negb (p x)) (List.filter p l) = [].
Proof.
  induction l as [|x l IH]; simpl; [done|]. destruct (p x) eqn:Hx; simpl; [|done].
  by rewrite Hx.
Qed.

(** What [cleanupExpired] leaves stored: the records not expired when the
    file is writable, everything otherwise. *)
Lemma cleanupExpired_stored (now : Z) (s : state) :
  stored (snd (cleanupExpired now s))
  = if writable s then List.filter (not_expired now) (stored s) else stored s.
Proof.
  destruct (_readFromFile_stored s) as [Hst Hw1].
  rewrite cleanupExpired_unfold. cbn [snd].
  destruct (List.filter (fun r => negb (not_expired now r)) (stored s)) eqn:Hexp.
  - rewrite Hst. destruct (writable s); [|done]. symmetry. by apply filter_all.
  - destruct (writable s) eqn:Hw.
    + destruct (_writeToFile_ok (List.filter (not_expired now) (stored s)) _ Hw1)
        as (s' & -> & _ & Hs'). done.
    + by rewrite _writeToFile_failed.
Qed.

Lemma cleanupExpired_initialized (now : Z) (s : state) :
  initialized (snd (cleanupExpired now s)) = true.
Proof.
  rewrite cleanupExpired_unfold. cbn [snd].
  pose proof (_readFromFile_initialized s) as Hi.
  destruct (List.filter _ _); [done|]. unfold _writeToFile.
  by destruct (writable (snd (_readFromFile s))).
Qed.

(** X7: [cleanupExpired] removes nothing that would still be listed: at the
    time of the cleanup and at any later time [getAddresses(false)] returns
    the same records after it as before it.  On a writable file a second
    cleanup at the same time removes nothing and changes nothing, and what
    [getAddresses(true)] returns after the cleanup is what
    [getAddresses(false)] returned before it. *)
Theorem cleanupExpired_keeps_listed (now : Z) (s : state) :
  (∀ later, now ≤ later →
     fst (getAddresses false later (snd (cleanupExpired now s)))
     = fst (getAddresses false later s))
  ∧ (writable s = true →
     cleanupExpired now (snd (cleanupExpired now s)) = (0, snd (cleanupExpired now s))
     ∧ fst (getAddresses true now (snd (cleanupExpired now s)))
       = fst (getAddresses false now s)).
Proof.
  assert (Hlist : ∀ t s0, fst (getAddresses false t s0)
                          = List.filter (not_expired t) (stored s0)).
  { intros t s0. unfold getAddresses. by rewrite _readFromFile_pair. }
  pose proof (cleanupExpired_stored now s) as Hstored.
  split.
  - intros later Hle. rewrite !Hlist, Hstored.
    destruct (writable s); [by apply filter_later|done].
  - intros Hw. rewrite Hw in Hstored. split.
    + rewrite (cleanupExpired_unfold now (snd (cleanupExpired now s))).
      rewrite Hstored, filter_none_left.
      by rewrite _readFromFile_done by apply cleanupExpired_initialized.
    + by rewrite getAddresses_all, Hlist.
Qed.

Lemma cleanupExpired_keeps_listed_witness :
  cleanupExpired 5000 (snd (cleanupExpired 5000 three_saved))
  = (0, snd (cleanupExpired 5000 three_saved))
  ∧ fst (getAddresses true 5000 (snd (cleanupExpired 5000 three_saved)))
    = fst (getAddresses false 5000 three_saved).
Proof.
  apply (cleanupExpired_keeps_listed 5000 three_saved). reflexivity.
Defined.





(** X9: reading initialises lazily and once.  A second read returns what
    the first returned and changes nothing; a file that exists is read as it
    is and never overwritten; a missing file reads as the empty collection,
    is created empty by the first read when it can be written, and is not
    created again by a service that is already initialised. *)
Theorem read_initialises_once (s : state) :
  _readFromFile (snd (_readFromFile s)) = (stored s, snd (_readFromFile s))
  ∧ initialized (snd (_readFromFile s)) = true
  ∧ (∀ l, file s = Some l →
          stored s = l ∧ file (snd (_readFromFile s)) = Some l)
  ∧ (file s = None →
     stored s = []
     ∧ (initialized s = false → writable s = true →
        file (snd (_readFromFile s)) = Some [])
     ∧ (initialized s = true → file (snd (_readFromFile s)) = None)).
Proof.
  split; [apply _readFromFile_again|]. split; [apply _readFromFile_initialized|].
  unfold stored, _readFromFile, _initialize, _writeToFile.
  destruct s as [[l|] wr ini]; simpl; split.
  - intros l' [= <-]. by destruct ini.
  - done.
  - done.
  - intros _. split; [by destruct ini, wr|]. split.
    + by intros -> ->.
    + by intros ->.
Qed.

Lemma read_initialises_once_witness :
  stored new_store = []
  ∧ (initialized new_store = false → writable new_store = true →
     file (snd (_readFromFile new_store)) = Some [])
  ∧ (initialized new_store = true → file (snd (_readFromFile new_store)) = None).
Proof.
  apply (read_initialises_once new_store). reflexivity.
Defined.

End StorageOperations.

Section StatusColumn.
Import StorageService CLIInterface.

(** X10: the status of a row.  A row is shown as expired exactly when its
    expiry date is before the time of display, so a record that
    [getAddresses(false)] returns is never shown as expired at the time of
    the listing, and is shown as expiring soon exactly when less than a day
    is left; a record that expires at this very instant is left out of the
    listing although its status would be expiring soon; a record without a
    valid expiry date would be shown as active. *)
Theorem rowStatus_of_listed (now : Z) (s : state) (r : record) :
  (∀ later, rowStatus later r = Expired ↔
            ∃ t, Date (r !! "expiresAt") = Some t ∧ t < later)
  ∧ (r ∈ fst (getAddresses false now s) →
     rowStatus now r ≠ Expired
     ∧ (rowStatus now r = ExpiringSoon ↔
        ∃ t, Date (r !! "expiresAt") = Some t ∧ t < now + msPerDay))
  ∧ (Date (r !! "expiresAt") = Some now →
     rowStatus now r = ExpiringSoon ∧ r ∉ fst (getAddresses false now s))
  ∧ (Date (r !! "expiresAt") = None → rowStatus now r = Active).
Proof.
  unfold rowStatus, msPerDay. split; [|split; [|split]].
  - intros later. destruct (Date (r !! "expiresAt")) as [t|].
    + destruct (t <? later) eqn:Hlt.
      * apply Z.ltb_lt in Hlt. split; [eauto|done].
      * apply Z.ltb_ge in Hlt. split.
        -- by destruct (t - later <? _).
        -- intros (t' & [= <-] & ?). lia.
    + split; [done|]. by intros (? & ? & ?).
  - intros (_ & t & -> & Hlt)%getAddresses_member.
    replace (t <? now) with false by (symmetry; apply Z.ltb_ge; lia).
    destruct (t - now <? 24 * 60 * 60 * 1000) eqn:Hsoon.
    + apply Z.ltb_lt in Hsoon. split; [done|]. split; [|done].
      intros _. exists t. split; [done|lia].
    + apply Z.ltb_ge in Hsoon. split; [done|]. split; [done|].
      intros (t' & [= <-] & ?). lia.
  - intros Hd. rewrite Hd, Z.ltb_irrefl, Z.sub_diag. split; [done|].
    intros (_ & t & Ht & Hlt)%getAddresses_member. rewrite Hd in Ht.
    injection Ht as <-. lia.
  - by intros ->.
Qed.

Lemma rowStatus_of_listed_witness :
  rowStatus 5000 {["address" := VStr "c@example.com"; "expiresAt" := VTime 6000]} ≠ Expired
  ∧ (rowStatus 5000 {["address" := VStr "c@example.com"; "expiresAt" := VTime 6000]}
     = ExpiringSoon ↔
     ∃ t, Date (({["address" := VStr "c@example.com"; "expiresAt" := VTime 6000]} : record)
                  !! "expiresAt") = Some t ∧ t < 5000 + msPerDay).
Proof.
  apply (rowStatus_of_listed 5000 three_saved
           {["address" := VStr "c@example.com"; "expiresAt" := VTime 6000]}).
  apply getAddresses_member. split.
  - vm_compute. do 2 right. left.
  - exists 6000. split; [reflexivity|lia].
Defined.

End StatusColumn.

(** * Further properties of the mailbox provider client *)

Section ClientOperations.
Import EmailService.
Local Open Scope js_scope.

Lemma keeps_bind {A B} (c : M A) (k : A → M B) :
  keeps_authorization c → (∀ a, keeps_authorization (k a)) →
  keeps_authorization (bind c k).
Proof.
  intros Hc Hk w. unfold bind. specialize (Hc w).
  destruct (c w) as [[a|e] w1]; simpl in *; [|done]. by rewrite Hk.
Qed.

Lemma keeps_try_catch {A} (c : M A) (handler : error → M A) :
  keeps_authorization c → (∀ e, keeps_authorization (handler e)) →
  keeps_authorization (try_catch c handler).
Proof.
  intros Hc Hh w. unfold try_catch. specialize (Hc w).
  destruct (c w) as [[a|e] w1]; simpl in *; [done|]. by rewrite Hh.
Qed.

Lemma keeps_send (method url : string) (body : json) (auth : option string) :
  keeps_authorization (send method url body auth).
Proof. intros w. apply send_world. Qed.

Lemma keeps_pure {A} (c : completion A) : keeps_authorization (run c).
Proof. by intros w. Qed.

Lemma keeps_sleep (ms : Z) : keeps_authorization (sleep ms).
Proof. by intros w. Qed.

Lemma keeps_attempts (this : service) (apiCall : M json) (options : settings)
    (n : nat) (k : Z) :
  keeps_authorization apiCall →
  keeps_authorization (attempts this apiCall options n k).
Proof.
  intros Hcall. revert k. induction n as [|n IH]; intros k w; simpl; [done|].
  specialize (Hcall w). destruct (apiCall w) as [[v|e] w1]; simpl in *; [done|].
  destruct (k =? maxRetries_of this options); [done|]. by rewrite IH.
Qed.

Lemma keeps_withRetry (this : service) (apiCall : M json) (options : settings) :
  keeps_authorization apiCall → keeps_authorization (withRetry this apiCall options).
Proof. apply keeps_attempts. Qed.

Lemma keeps_delete (this : service) (prefix required url : string)
    (id token : json) :
  keeps_authorization
    (try_catch
       (if negb (truthy id) || negb (truthy token)
        then throw (new_Error required)
        else withRetry this
               (send "DELETE" url JUndefined (Some ("Bearer " +:+ to_String token))
                then* ret (JBool true)) no_settings)
       (fun error => throw (new_Error (prefix +:+ message error)))).
Proof.
  apply keeps_try_catch; [|by intros e w].
  destruct (negb (truthy id) || negb (truthy token)); [by intros w|].
  apply keeps_withRetry, keeps_bind; [apply keeps_send|by intros _ w].
Qed.

Lemma keeps_createAccount (address password : string) :
  keeps_authorization (createAccount address password).
Proof.
  unfold createAccount.
  repeat first
    [ apply keeps_sleep | apply keeps_send | apply keeps_pure
    | (apply keeps_bind; [|intros ?])
    | match goal with |- keeps_authorization (if ?b then _ else _) => destruct b end
    | (by intros w) ].
Qed.

Lemma keeps_getAvailableDomain (this : service) :
  keeps_authorization (getAvailableDomain this).
Proof.
  apply keeps_try_catch; [|by intros e w]. apply keeps_withRetry.
  apply keeps_bind; [apply keeps_send|]. intros response.
  apply keeps_bind; [apply keeps_pure|]. intros [domain|]; by intros w.
Qed.

(** X11: no operation but the two message-fetching ones touches the default
    [Authorization] header: [createEmailAddress], [getAvailableDomain],
    [getAuthToken], [deleteEmail] and [deleteAccount] end with the header
    they began with, whether they return or fail. *)
Theorem authorization_untouched (this : service) (rnd : nat → Q)
    (password : option string) (address secret : string) (id token : json) :
  keeps_authorization (createEmailAddress this rnd password)
  ∧ keeps_authorization (getAvailableDomain this)
  ∧ keeps_authorization (getAuthToken this address secret)
  ∧ keeps_authorization (deleteEmail this id token)
  ∧ keeps_authorization (deleteAccount this id token).
Proof.
  split; [|split; [|split; [|split]]].
  - apply keeps_try_catch; [|by intros e w].
    apply keeps_bind; [apply keeps_getAvailableDomain|]. intros domain.
    destruct (negb (truthy domain)); [by intros w|].
    apply keeps_withRetry, keeps_createAccount.
  - apply keeps_getAvailableDomain.
  - apply keeps_try_catch; [|by intros e w]. apply keeps_withRetry.
    apply keeps_bind; [apply keeps_send|]. intros response. apply keeps_pure.
  - apply keeps_delete.
  - apply keeps_delete.
Qed.

(** The events a retried single request adds to the trace. *)
Lemma attempts_request_trace (this : service) (options : settings)
    (method url : string) (body : json) (header : string) (v : json)
    (n : nat) (k : Z) (w : world) :
  ∃ evs,
    trace (snd (attempts this
                  (send method url body (Some header) then* ret v) options n k w))
    = trace w ++ evs
    ∧ Forall (fun ev => ev = Sent (Request method url body (Some header))
                        ∨ ∃ ms, ev = Slept ms) evs
    ∧ (length (List.filter is_request evs) ≤ n)%nat.
Proof.
  revert k w. induction n as [|n IH]; intros k w; simpl.
  { exists []. by rewrite app_nil_r. }
  unfold bind at 1.
  destruct (send_world method url body (Some header) w) as (_ & _ & Ht).
  destruct (send method url body (Some header) w) as [[r|e] w1]; simpl in Ht |- *.
  - exists [Sent (Request method url body (Some header))]. split; [done|].
    split; [|simpl; lia]. constructor; [by left|constructor].
  - destruct (k =? maxRetries_of this options).
    + exists [Sent (Request method url body (Some header))]. split; [done|].
      split; [|simpl; lia]. constructor; [by left|constructor].
    + match goal with |- context [attempts _ _ _ n (k + 1) ?w2] =>
        destruct (IH (k + 1) w2) as (evs & Hevs & Hall & Hlen) end.
      exists (Sent (Request method url body (Some header))
              :: Slept (backoff this options k e) :: evs).
      split; [|split].
      * rewrite Hevs. simpl. rewrite Ht. by rewrite <- !app_assoc.
      * constructor; [by left|]. constructor; [right; eauto|done].
      * simpl. lia.
Qed.

Lemma delete_trace (this : service) (prefix required url : string)
    (id token : json) (w : world) :
  ∃ evs,
    trace (snd (try_catch
       (if negb (truthy id) || negb (truthy token)
        then throw (new_Error required)
        else withRetry this
               (send "DELETE" url JUndefined (Some ("Bearer " +:+ to_String token))
                then* ret (JBool true)) no_settings)
       (fun error => throw (new_Error (prefix +:+ message error))) w))
    = trace w ++ evs
    ∧ Forall (fun ev => ev = Sent (Request "DELETE" url JUndefined
                                     (Some ("Bearer " +:+ to_String token)))
                        ∨ ∃ ms, ev = Slept ms) evs
    ∧ (length (List.filter is_request evs) ≤ Z.to_nat (maxRetries this))%nat.
Proof.
  unfold try_catch. destruct (negb (truthy id) || negb (truthy token)).
  { exists []. simpl. rewrite app_nil_r. split; [done|]. split; [constructor|lia]. }
  unfold withRetry, from_attempt.
  destruct (attempts_request_trace this no_settings "DELETE" url JUndefined
              ("Bearer " +:+ to_String token) (JBool true)
              (Z.to_nat (maxRetries_of this no_settings + 1 - 1)) 1 w)
    as (evs & Hevs & Hall & Hlen).
  exists evs. split; [|split; [done|]].
  - destruct (attempts _ _ _ _ _ w) as [[v|e] w1]; exact Hevs.
  - etrans; [exact Hlen|]. unfold maxRetries_of, no_settings. simpl. lia.
Qed.

(** X12: every request that [deleteEmail] and [deleteAccount] make is the
    [DELETE] of the given message or account with the given token as its own
    bearer header, whatever the default header is; between requests they
    only wait; and they make no more requests than [maxRetries]. *)
Theorem delete_requests (this : service) (id token : json) (w : world) :
  (∃ evs,
     trace (snd (deleteEmail this id token w)) = trace w ++ evs
     ∧ Forall (fun ev => ev = Sent (Request "DELETE" ("/messages/" +:+ to_String id)
                                      JUndefined (Some ("Bearer " +:+ to_String token)))
                         ∨ ∃ ms, ev = Slept ms) evs
     ∧ (length (List.filter is_request evs) ≤ Z.to_nat (maxRetries this))%nat)
  ∧ (∃ evs,
       trace (snd (deleteAccount this id token w)) = trace w ++ evs
       ∧ Forall (fun ev => ev = Sent (Request "DELETE" ("/accounts/" +:+ to_String id)
                                        JUndefined (Some ("Bearer " +:+ to_String token)))
                           ∨ ∃ ms, ev = Slept ms) evs
       ∧ (length (List.filter is_request evs) ≤ Z.to_nat (maxRetries this))%nat).
Proof. split; apply delete_trace. Qed.

(** A value that the retry loop returns, when it makes at least one attempt,
    is a value that the retried call returned. *)
Lemma attempts_returns (this : service) (apiCall : M json) (options : settings)
    (n : nat) (k : Z) (w w' : world) (v : json) :
  k + Z.of_nat n = maxRetries_of this options + 1 → (1 ≤ n)%nat →
  attempts this apiCall options n k w = (Return v, w') →
  ∃ w0, apiCall w0 = (Return v, w').
Proof.
  revert k w. induction n as [|n IH]; intros k w Hk Hn; [lia|]. simpl.
  destruct (apiCall w) as [[v0|e] w1] eqn:Hcall.
  - intros [= <- <-]. by exists w.
  - destruct (k =? maxRetries_of this options) eqn:Hlast; [by intros [=]|].
    apply Z.eqb_neq in Hlast. apply IH; lia.
Qed.

Lemma withRetry_returns (this : service) (apiCall : M json) (options : settings)
    (w w' : world) (v : json) :
  1 ≤ maxRetries_of this options →
  withRetry this apiCall options w = (Return v, w') →
  ∃ w0, apiCall w0 = (Return v, w').
Proof.
  intros HN. unfold withRetry, from_attempt. apply attempts_returns; lia.
Qed.

Lemma withRetry_first (this : service) (apiCall : M json) (options : settings)
    (w w' : world) (v : json) :
  1 ≤ maxRetries_of this options →
  apiCall w = (Return v, w') →
  withRetry this apiCall options w = (Return v, w').
Proof. intros HN. apply from_attempt_returned. lia. Qed.

Lemma withRetry_none (this : service) (apiCall : M json) (options : settings)
    (w : world) :
  maxRetries_of this options < 0 →
  withRetry this apiCall options w = (Return JUndefined, w).
Proof. intros HN. apply from_attempt_beyond. lia. Qed.

Lemma send_accepted (method url : string) (body : json) (auth : option string)
    (w : world) (r : http_response) (rest : list reply) :
  provider w = Answer r :: rest → 200 ≤ status r < 300 →
  send method url body auth w
  = (Return r, World (authorization w) rest
                 (trace w ++ [Sent (Request method url body
                    (match auth with Some h => Some h | None => authorization w end))])).
Proof.
  intros Hprov Hok. unfold send. rewrite Hprov. simpl.
  by replace ((200 <=? status r) && (status r <? 300)) with true
    by (symmetry; apply andb_true_iff; split; [apply Z.leb_le|apply Z.ltb_lt]; lia).
Qed.

(** X13: with at least one attempt allowed, [deleteEmail] and
    [deleteAccount] called with an id and a token return nothing but [true];
    when the provider accepts the first request they return [true] after
    that one request, without waiting. *)
Theorem delete_returns_true (this : service) (id token : json) (w : world) :
  1 ≤ maxRetries this → truthy id = true → truthy token = true →
  (∀ v w', deleteEmail this id token w = (Return v, w') → v = JBool true)
  ∧ (∀ v w', deleteAccount this id token w = (Return v, w') → v = JBool true)
  ∧ (∀ r rest, provider w = Answer r :: rest → 200 ≤ status r < 300 →
       deleteEmail this id token w
       = (Return (JBool true),
          World (authorization w) rest
            (trace w ++ [Sent (Request "DELETE" ("/messages/" +:+ to_String id)
                                 JUndefined (Some ("Bearer " +:+ to_String token)))]))
       ∧ deleteAccount this id token w
         = (Return (JBool true),
            World (authorization w) rest
              (trace w ++ [Sent (Request "DELETE" ("/accounts/" +:+ to_String id)
                                   JUndefined (Some ("Bearer " +:+ to_String token)))]))).
Proof.
  intros HN Hid Htoken.
  assert (Honly : ∀ url v w', withRetry this
            (send "DELETE" url JUndefined (Some ("Bearer " +:+ to_String token))
             then* ret (JBool true)) no_settings w = (Return v, w') → v = JBool true).
  { intros url v w' [w0 Hcall]%withRetry_returns; [|done].
    unfold bind, ret in Hcall. destruct (send _ _ _ _ w0) as [[r|e] w1]; by simplify_eq. }
  unfold deleteEmail, deleteAccount, try_catch. rewrite Hid, Htoken. simpl.
  split; [|split].
  - intros v w'. destruct (withRetry _ _ _ w) as [[v0|e] w1] eqn:Hcall; [|by intros [=]].
    intros [= <- <-]. by apply Honly in Hcall.
  - intros v w'. destruct (withRetry _ _ _ w) as [[v0|e] w1] eqn:Hcall; [|by intros [=]].
    intros [= <- <-]. by apply Honly in Hcall.
  - intros r rest Hprov Hok. split.
    + erewrite withRetry_first; [done|done|]. unfold bind.
      by rewrite (send_accepted _ _ _ _ w r rest).
    + erewrite withRetry_first; [done|done|]. unfold bind.
      by rewrite (send_accepted _ _ _ _ w r rest).
Qed.

Lemma delete_returns_true_witness :
  deleteEmail default_service (JStr "m1") (JStr "tok")
    (offline [Answer (Response 204 JUndefined)])
  = (Return (JBool true),
     World None []
       [Sent (Request "DELETE" ("/messages/" +:+ to_String (JStr "m1")) JUndefined
                (Some ("Bearer " +:+ to_String (JStr "tok"))))])
  ∧ deleteAccount default_service (JStr "m1") (JStr "tok")
      (offline [Answer (Response 204 JUndefined)])
    = (Return (JBool true),
       World None []
         [Sent (Request "DELETE" ("/accounts/" +:+ to_String (JStr "m1")) JUndefined
                  (Some ("Bearer " +:+ to_String (JStr "tok"))))]).
Proof.
  destruct (delete_returns_true default_service (JStr "m1") (JStr "tok")
              (offline [Answer (Response 204 JUndefined)])) as (_ & _ & H);
    [by vm_compute|done|done|].
  apply (H (Response 204 JUndefined) []); [reflexivity|simpl; lia].
Defined.

(** X14: a service configured with a negative [maxRetries] makes no attempt
    at all: [deleteEmail], [deleteAccount], [getAuthToken] and
    [getAvailableDomain] return [undefined] without a request, and
    [createEmailAddress] fails, without a request, for want of a domain. *)
Theorem negative_maxRetries (this : service) (rnd : nat → Q)
    (password : option string) (address secret : string) (id token : json)
    (w : world) :
  maxRetries this < 0 →
  truthy id = true → truthy token = true →
  deleteEmail this id token w = (Return JUndefined, w)
  ∧ deleteAccount this id token w = (Return JUndefined, w)
  ∧ getAuthToken this address secret w = (Return JUndefined, w)
  ∧ getAvailableDomain this w = (Return JUndefined, w)
  ∧ createEmailAddress this rnd password w
    = (Throw (new_Error (describe (NetworkError
               "Failed to retrieve a valid email domain"))), w).
Proof.
  intros HN Hid Htoken.
  assert (Hnone : ∀ apiCall, withRetry this apiCall no_settings w = (Return JUndefined, w))
    by (intros apiCall; by apply withRetry_none).
  assert (Hdomain : getAvailableDomain this w = (Return JUndefined, w))
    by (unfold getAvailableDomain, try_catch; by rewrite Hnone).
  unfold deleteEmail, deleteAccount, getAuthToken, createEmailAddress, try_catch.
  rewrite Hid, Htoken. cbn [negb orb]. rewrite !Hnone.
  unfold bind. rewrite Hdomain. done.
Qed.

Lemma negative_maxRetries_witness :
  deleteEmail impatient_service (JStr "m1") (JStr "tok") limited_always
  = (Return JUndefined, limited_always)
  ∧ deleteAccount impatient_service (JStr "m1") (JStr "tok") limited_always
    = (Return JUndefined, limited_always)
  ∧ getAuthToken impatient_service "a@example.com" "secret" limited_always
    = (Return JUndefined, limited_always)
  ∧ getAvailableDomain impatient_service limited_always
    = (Return JUndefined, limited_always)
  ∧ createEmailAddress impatient_service half None limited_always
    = (Throw (new_Error (describe (NetworkError
               "Failed to retrieve a valid email domain"))), limited_always).
Proof.
  apply (negative_maxRetries impatient_service half None "a@example.com" "secret"
           (JStr "m1") (JStr "tok") limited_always); [by vm_compute|done|done].
Defined.

(** The call that [getAvailableDomain] retries returns no falsy value. *)
Lemma domain_call_truthy (w w' : world) (v : json) :
  (let* response := send "GET" "/domains" JUndefined None in
   let found :=
     match data response with
     | JArr (domainObj :: _) =>
         if truthy domainObj
         then and_then (prop "domain" domainObj)
                (fun domain => Return (if truthy domain then Some domain else None))
         else Return None
     | _ => Return None
     end in
   let* found := run found in
   match found with
   | Some domain => ret domain
   | None => throw (new_Error "No valid domains found in the response")
   end) w = (Return v, w') →
  truthy v = true.
Proof.
  unfold bind, run, ret, throw.
  destruct (send "GET" "/domains" JUndefined None w) as [[response|e] w1]; [|by intros [=]].
  destruct (data response) as [| | | | |[|domainObj more]|]; try by intros [=].
  destruct (truthy domainObj); [|by intros [=]].
  destruct (prop "domain" domainObj) as [domain|e]; simpl; [|by intros [=]].
  destruct (truthy domain) eqn:Hd; by intros [=]; subst.
Qed.

(** X15: with at least one attempt allowed, a domain that
    [getAvailableDomain] returns is never falsy; and when the first reply is
    a non-empty array whose first element has a truthy [domain], that domain
    is returned after this one request, whatever the other elements are. *)
Theorem getAvailableDomain_first (this : service) (w : world) :
  1 ≤ maxRetries this →
  (∀ v w', getAvailableDomain this w = (Return v, w') → truthy v = true)
  ∧ (∀ code fields more rest,
       provider w = Answer (Response code (JArr (JObj fields :: more))) :: rest →
       200 ≤ code < 300 →
       truthy (own_property "domain" fields) = true →
       getAvailableDomain this w
       = (Return (own_property "domain" fields),
          World (authorization w) rest
            (trace w ++ [Sent (Request "GET" "/domains" JUndefined (authorization w))]))).
Proof.
  intros HN. split.
  - intros v w'. unfold getAvailableDomain, try_catch.
    destruct (withRetry _ _ _ w) as [[v0|e] w1] eqn:Hcall; [|by intros [=]].
    intros [= <- <-]. apply withRetry_returns in Hcall as [w0 Hcall]; [|done].
    by apply domain_call_truthy in Hcall.
  - intros code fields more rest Hprov Hok Hdomain.
    unfold getAvailableDomain, try_catch.
    erewrite withRetry_first; [done|done|]. unfold bind.
    rewrite (send_accepted _ _ _ _ w _ rest Hprov) by done. simpl.
    unfold run. simpl. by rewrite Hdomain.
Qed.

Lemma getAvailableDomain_first_witness :
  getAvailableDomain default_service rejecting_accounts
  = (Return (own_property "domain" [("domain", JStr "example.com")]),
     World (authorization rejecting_accounts)
       [status_only 422; status_only 422; status_only 422; status_only 422;
        status_only 422]
       (trace rejecting_accounts
        ++ [Sent (Request "GET" "/domains" JUndefined (authorization rejecting_accounts))])).
Proof.
  destruct (getAvailableDomain_first default_service rejecting_accounts) as [_ H];
    [by vm_compute|].
  apply (H 200 [("domain", JStr "example.com")] []); [reflexivity|lia|reflexivity].
Defined.

Lemma lacks_false (name : string) (v : json) :
  lacks name v = Return false →
  ∃ x, prop name v = Return x ∧ truthy x = true.
Proof.
  unfold lacks. destruct (truthy v); simpl; [|by intros [=]].
  destruct (prop name v) as [x|e]; simpl; [|by intros [=]].
  intros [= Hx]. exists x. split; [done|]. by destruct (truthy x).
Qed.

Lemma createAccount_returns (address password : string) (w w' : world) (v : json) :
  createAccount address password w = (Return v, w') →
  ∃ id created token,
    v = JObj [("id", id); ("address", created); ("token", token);
              ("password", JStr password)]
    ∧ truthy id = true ∧ truthy token = true.
Proof.
  unfold createAccount, bind, sleep, run, throw, ret.
  destruct (send "POST" "/accounts" _ None _) as [[accountResponse|e] w1]; [|by intros [=]].
  destruct (lacks "id" (data accountResponse)) as [[]|e] eqn:Hid; try by intros [=].
  destruct (send "POST" "/token" _ None _) as [[tokenResponse|e] w2]; [|by intros [=]].
  destruct (lacks "token" (data tokenResponse)) as [[]|e] eqn:Htoken; try by intros [=].
  apply lacks_false in Hid as (id & -> & Hid).
  apply lacks_false in Htoken as (token & -> & Htoken).
  destruct (prop "address" (data accountResponse)) as [created|e]; [|by intros [=]].
  intros [= <- _]. by exists id, created, token.
Qed.

(** X16: whatever [createEmailAddress] returns is an object with a truthy
    [id], a truthy [token], the password that was given (or the default
    one), and under [address] whatever the provider's account reply has
    there, for every service and every provider. *)
Theorem createEmailAddress_result (this : service) (rnd : nat → Q)
    (password : option string) (w w' : world) (v : json) :
  createEmailAddress this rnd password w = (Return v, w') →
  ∃ id created token,
    v = JObj [("id", id); ("address", created); ("token", token);
              ("password", JStr (default "Password123!" password))]
    ∧ truthy id = true ∧ truthy token = true.
Proof.
  unfold createEmailAddress, try_catch, bind.
  destruct (getAvailableDomain this w) as [[domain|e] w1]; [|by intros [=]].
  destruct (negb (truthy domain)); [by intros [=]|].
  destruct (withRetry _ _ _ w1) as [[v0|e] w2] eqn:Hcall; [|by intros [=]].
  intros [= <- <-]. apply withRetry_returns in Hcall as [w0 Hcall]; [|by vm_compute].
  by apply createAccount_returns in Hcall.
Qed.

Lemma createEmailAddress_result_witness :
  ∃ id created token,
    JObj [("id", JStr "abc"); ("address", JUndefined); ("token", JStr "tok");
          ("password", JStr "Password123!")]
    = JObj [("id", id); ("address", created); ("token", token);
            ("password", JStr (default "Password123!" None))]
    ∧ truthy id = true ∧ truthy token = true.
Proof.
  eapply (createEmailAddress_result default_service half None accepting_provider).
  vm_compute. reflexivity.
Defined.

(** X17: provisioning against a provider that offers a domain, creates the
    account and issues a token at the first attempt makes exactly three
    requests, each of the last two after a wait of one second: it asks for
    the domains, posts the generated address (local part, [@], domain) with
    the password to [/accounts], and posts the same credentials to
    [/token]; it returns the id and the address of the account reply with
    the token and the password. *)
Theorem createEmailAddress_accepted (this : service) (rnd : nat → Q)
    (password : option string) (w : world) (code1 code2 code3 : Z)
    (domains account token : list (string * json)) (more : list json)
    (rest : list reply) :
  1 ≤ maxRetries this →
  provider w = Answer (Response code1 (JArr (JObj domains :: more)))
               :: Answer (Response code2 (JObj account))
               :: Answer (Response code3 (JObj token)) :: rest →
  200 ≤ code1 < 300 → 200 ≤ code2 < 300 → 200 ≤ code3 < 300 →
  truthy (own_property "domain" domains) = true →
  truthy (own_property "id" account) = true →
  truthy (own_property "token" token) = true →
  let secret := default "Password123!" password in
  let address := generateUsername rnd +:+ "@"
                 +:+ to_String (own_property "domain" domains) in
  createEmailAddress this rnd password w
  = (Return (JObj [("id", own_property "id" account);
                   ("address", own_property "address" account);
                   ("token", own_property "token" token);
                   ("password", JStr secret)]),
     World (authorization w) rest
       (trace w ++ [Sent (Request "GET" "/domains" JUndefined (authorization w));
                    Slept 1000;
                    Sent (Request "POST" "/accounts" (credentials address secret)
                            (authorization w));
                    Slept 1000;
                    Sent (Request "POST" "/token" (credentials address secret)
                            (authorization w))])).
Proof.
  intros HN Hprov H1 H2 H3 Hdomain Hid Htoken secret address.
  unfold createEmailAddress, try_catch. unfold bind at 1.
  assert (Hdom : getAvailableDomain this w
     = (Return (own_property "domain" domains),
        World (authorization w)
          (Answer (Response code2 (JObj account))
           :: Answer (Response code3 (JObj token)) :: rest)
          (trace w ++ [Sent (Request "GET" "/domains" JUndefined (authorization w))]))).
  { unfold getAvailableDomain, try_catch.
    erewrite withRetry_first; [done|done|]. unfold bind.
    rewrite (send_accepted _ _ _ _ w _ _ Hprov) by done. simpl.
    unfold run. simpl. by rewrite Hdomain. }
  rewrite Hdom, Hdomain. cbn [negb]. fold secret address.
  erewrite withRetry_first; [done|by vm_compute|].
  unfold createAccount, bind, sleep. cbn [fst snd authorization provider trace].
  erewrite send_accepted; [|reflexivity|done].
  cbn [authorization provider trace data]. unfold run, lacks. cbn [truthy negb prop and_then].
  rewrite Hid. cbn [negb].
  erewrite send_accepted; [|reflexivity|done].
  cbn [authorization provider trace data truthy negb prop and_then]. rewrite Htoken.
  cbn [negb]. unfold ret. by rewrite <- !app_assoc.
Qed.

Lemma createEmailAddress_accepted_witness :
  createEmailAddress default_service half None accepting_provider
  = (Return (JObj [("id", own_property "id" [("id", JStr "abc")]);
                   ("address", own_property "address" [("id", JStr "abc")]);
                   ("token", own_property "token" [("token", JStr "tok")]);
                   ("password", JStr (default "Password123!" None))]),
     World (authorization accepting_provider) []
       (trace accepting_provider
        ++ [Sent (Request "GET" "/domains" JUndefined (authorization accepting_provider));
            Slept 1000;
            Sent (Request "POST" "/accounts"
                    (credentials (generateUsername half +:+ "@"
                                  +:+ to_String (own_property "domain"
                                                   [("domain", JStr "example.com")]))
                                 (default "Password123!" None))
                    (authorization accepting_provider));
            Slept 1000;
            Sent (Request "POST" "/token"
                    (credentials (generateUsername half +:+ "@"
                                  +:+ to_String (own_property "domain"
                                                   [("domain", JStr "example.com")]))
                                 (default "Password123!" None))
                    (authorization accepting_provider))])).
Proof.
  apply (createEmailAddress_accepted default_service half None accepting_provider
           200 200 200 [("domain", JStr "example.com")] [("id", JStr "abc")]
           [("token", JStr "tok")] [] []);
    try reflexivity; try lia. by vm_compute.
Defined.

(** X22: [createEmailAddress] never reports a failure by its status.  What
    it throws carries no response and has the message of a network error
    around the underlying message, which is none of the five messages kept
    for the statuses 422, 429, 400, 403 and 500. *)
Theorem createEmailAddress_never_by_status (this : service) (rnd : nat → Q)
    (password : option string) (w w' : world) (e : error) :
  createEmailAddress this rnd password w = (Throw e, w') →
  response e = None
  ∧ (∃ underlying,
       message e = "Failed to create email address: " +:+ underlying
                   +:+ ". Please check your internet connection and try again.")
  ∧ message e ≠ describe InvalidAddressFormat
  ∧ message e ≠ describe RateLimited
  ∧ message e ≠ describe BadRequest
  ∧ message e ≠ describe Forbidden
  ∧ message e ≠ describe ProviderServerError.
Proof.
  intros [underlying ->]%createEmailAddress_failure. simpl.
  split; [done|]. split; [eauto|]. repeat split; discriminate.
Qed.

Lemma createEmailAddress_never_by_status_witness :
  response (new_Error (describe (NetworkError
    "Operation failed after 5 attempts: Request failed with status code 422"))) = None
  ∧ (∃ underlying,
       message (new_Error (describe (NetworkError
         "Operation failed after 5 attempts: Request failed with status code 422")))
       = "Failed to create email address: " +:+ underlying
         +:+ ". Please check your internet connection and try again.")
  ∧ message (new_Error (describe (NetworkError
      "Operation failed after 5 attempts: Request failed with status code 422")))
    ≠ describe InvalidAddressFormat
  ∧ message (new_Error (describe (NetworkError
      "Operation failed after 5 attempts: Request failed with status code 422")))
    ≠ describe RateLimited
  ∧ message (new_Error (describe (NetworkError
      "Operation failed after 5 attempts: Request failed with status code 422")))
    ≠ describe BadRequest
  ∧ message (new_Error (describe (NetworkError
      "Operation failed after 5 attempts: Request failed with status code 422")))
    ≠ describe Forbidden
  ∧ message (new_Error (describe (NetworkError
      "Operation failed after 5 attempts: Request failed with status code 422")))
    ≠ describe ProviderServerError.
Proof.
  eapply (createEmailAddress_never_by_status default_service half None rejecting_accounts).
  vm_compute. reflexivity.
Defined.


Lemma map_throwing_objects (l : list (list (string * json))) :
  map_throwing summary (List.map JObj l)
  = Return (List.map (fun fields =>
      JObj [("id", own_property "id" fields); ("from", own_property "from" fields);
            ("to", own_property "to" fields); ("subject", own_property "subject" fields);
            ("intro", own_property "intro" fields);
            ("hasAttachments", own_property "hasAttachments" fields);
            ("receivedDate", own_property "createdAt" fields)]) l).
Proof. induction l as [|fields l IH]; simpl; [done|]. by rewrite IH. Qed.

Lemma map_throwing_nullish (msgs : list json) :
  (∃ m, In m msgs ∧ (m = JNull ∨ m = JUndefined)) →
  ∃ e, map_throwing summary msgs = Throw e.
Proof.
  induction msgs as [|x msgs IH]; intros (m & Hin & Hm); [done|]. simpl.
  destruct (summary x) as [y|e] eqn:Hx; simpl; [|eauto].
  destruct Hin as [->|Hin].
  - destruct Hm as [-> | ->]; discriminate.
  - destruct IH as [e ->]; eauto.
Qed.

Lemma getEmails_listed (address password : string) (w : world)
    (auth listing : http_response) (rest : list reply) (token : json) :
  provider w = Answer auth :: Answer listing :: rest →
  200 ≤ status auth < 300 →
  prop "token" (data auth) = Return token →
  200 ≤ status listing < 300 →
  getEmails address password w
  = match summaries (data listing) with
    | Return v =>
        (Return v,
         World None rest
           (trace w ++ [Sent (Request "POST" "/token" (credentials address password)
                                (authorization w));
                        Sent (Request "GET" "/messages?page=1&limit=20" JUndefined
                                (Some ("Bearer " +:+ to_String token)))]))
    | Throw e =>
        (Throw (new_Error ("Failed to fetch emails: " +:+ message e)),
         World None rest
           (trace w ++ [Sent (Request "POST" "/token" (credentials address password)
                                (authorization w));
                        Sent (Request "GET" "/messages?page=1&limit=20" JUndefined
                                (Some ("Bearer " +:+ to_String token)))]))
    end.
Proof.
  intros Hprov Hauth Htoken Hlisting.
  unfold getEmails, try_catch, bind.
  erewrite send_accepted; [|exact Hprov|done].
  unfold run at 1. rewrite Htoken. unfold setAuthToken.
  erewrite send_accepted; [|reflexivity|done].
  cbn [authorization provider trace]. unfold clearAuthToken, run, throw.
  cbn [authorization provider trace]. rewrite <- !app_assoc.
  by destruct (summaries (data listing)).
Qed.

(** X18: [getEmails], after a successful authentication, on a 2xx list
    reply whose [hydra:member] is an array of objects, returns one summary
    per message, in order, made of the message's [id], [from], [to],
    [subject], [intro], [hasAttachments] and, under [receivedDate], its
    [createdAt]; when a member of the array is [null] the whole call fails
    instead; in both cases the default header ends cleared. *)
Theorem getEmails_summaries (address password : string) (w : world)
    (auth : http_response) (code : Z) (fields : list (string * json))
    (msgs : list json) (rest : list reply) (token : json) :
  provider w = Answer auth :: Answer (Response code (JObj fields)) :: rest →
  200 ≤ status auth < 300 →
  prop "token" (data auth) = Return token →
  200 ≤ code < 300 →
  own_property "hydra:member" fields = JArr msgs →
  authorization (snd (getEmails address password w)) = None
  ∧ (∀ objects, msgs = List.map JObj objects →
       fst (getEmails address password w)
       = Return (JArr (List.map (fun m =>
           JObj [("id", own_property "id" m); ("from", own_property "from" m);
                 ("to", own_property "to" m); ("subject", own_property "subject" m);
                 ("intro", own_property "intro" m);
                 ("hasAttachments", own_property "hasAttachments" m);
                 ("receivedDate", own_property "createdAt" m)]) objects)))
  ∧ ((∃ m, In m msgs ∧ (m = JNull ∨ m = JUndefined)) →
     ∃ reason, fst (getEmails address password w)
               = Throw (new_Error ("Failed to fetch emails: " +:+ reason))).
Proof.
  intros Hprov Hauth Htoken Hcode Hmember.
  rewrite (getEmails_listed address password w auth (Response code (JObj fields)) rest token)
    by done.
  unfold summaries. cbn [data truthy prop and_then]. rewrite Hmember.
  split; [|split].
  - by destruct (map_throwing summary msgs).
  - intros objects ->. by rewrite map_throwing_objects.
  - intros [e ->]%map_throwing_nullish. simpl. eauto.
Qed.

Lemma getEmails_summaries_witness :
  fst (getEmails "a@example.com" "secret" one_message)
  = Return (JArr (List.map (fun m =>
      JObj [("id", own_property "id" m); ("from", own_property "from" m);
            ("to", own_property "to" m); ("subject", own_property "subject" m);
            ("intro", own_property "intro" m);
            ("hasAttachments", own_property "hasAttachments" m);
            ("receivedDate", own_property "createdAt" m)])
      [[("id", JStr "m1"); ("createdAt", JStr "2024-01-01T00:00:00+00:00")]])).
Proof.
  destruct (getEmails_summaries "a@example.com" "secret" one_message
              (Response 200 (JObj [("token", JStr "tok")])) 200
              [("hydra:member",
                JArr [JObj [("id", JStr "m1");
                            ("createdAt", JStr "2024-01-01T00:00:00+00:00")]])]
              [JObj [("id", JStr "m1"); ("createdAt", JStr "2024-01-01T00:00:00+00:00")]]
              [] (JStr "tok")) as (_ & H & _);
    [reflexivity|simpl; lia|reflexivity|lia|reflexivity|].
  by apply H.
Defined.

(** X19: no failure of a public operation carries the provider's response:
    what [getAvailableDomain], [getAuthToken], [getEmails],
    [getEmailContent], [deleteEmail] and [deleteAccount] throw is a plain
    error whose message starts with the operation's own prefix, so a caller
    cannot read a status code from it. *)
Theorem failures_are_plain (this : service) (messageId address password : string)
    (id token : json) (w w' : world) (e : error) :
  (getAvailableDomain this w = (Throw e, w') →
   response e = None
   ∧ ∃ m, message e = "Unable to retrieve available email domains: " +:+ m)
  ∧ (getAuthToken this address password w = (Throw e, w') →
     response e = None ∧ ∃ m, message e = "Authentication failed: " +:+ m)
  ∧ (getEmails address password w = (Throw e, w') →
     response e = None ∧ ∃ m, message e = "Failed to fetch emails: " +:+ m)
  ∧ (getEmailContent messageId address password w = (Throw e, w') →
     response e = None ∧ ∃ m, message e = "Failed to fetch email content: " +:+ m)
  ∧ (deleteEmail this id token w = (Throw e, w') →
     response e = None ∧ ∃ m, message e = "Failed to delete email: " +:+ m)
  ∧ (deleteAccount this id token w = (Throw e, w') →
     response e = None ∧ ∃ m, message e = "Failed to delete account: " +:+ m).
Proof.
  assert (Hcatch : ∀ (c : M json) (prefix : string) (tidy : M unit),
            (∀ w0, ∃ w1, tidy w0 = (Return tt, w1)) →
            try_catch c (fun error => tidy then* throw (new_Error (prefix +:+ message error))) w
            = (Throw e, w') →
            response e = None ∧ ∃ m, message e = prefix +:+ m).
  { intros c prefix tidy Htidy. unfold try_catch, bind, throw.
    destruct (c w) as [[v|e0] w1]; [by intros [=]|].
    destruct (Htidy w1) as [w2 ->]. intros [= <- _]. eauto. }
  assert (Hplain : ∀ (c : M json) (prefix : string),
            try_catch c (fun error => throw (new_Error (prefix +:+ message error))) w
            = (Throw e, w') →
            response e = None ∧ ∃ m, message e = prefix +:+ m).
  { intros c prefix. unfold try_catch, throw.
    destruct (c w) as [[v|e0] w1]; [by intros [=]|]. intros [= <- _]. eauto. }
  split; [apply Hplain|]. split; [apply Hplain|].
  split; [apply Hcatch; intros w0; by eexists|].
  split; [apply Hcatch; intros w0; by eexists|].
  split; apply Hplain.
Qed.

Lemma failures_are_plain_witness :
  response (new_Error
    "Failed to delete email: Operation failed after 3 attempts: Request failed with status code 429")
  = None
  ∧ ∃ m, message (new_Error
    "Failed to delete email: Operation failed after 3 attempts: Request failed with status code 429")
    = "Failed to delete email: " +:+ m.
Proof.
  eapply (failures_are_plain default_service "m1" "a@example.com" "secret"
            (JStr "m1") (JStr "tok") limited_always).
  vm_compute. reflexivity.
Defined.

(** X20: [getAuthToken], with at least one attempt allowed, on a 2xx reply
    whose body is an object returns the [token] property of that body after
    this one request, without checking it: [undefined] when the body has no
    token. *)
Theorem getAuthToken_first (this : service) (address password : string)
    (w : world) (code : Z) (fields : list (string * json)) (rest : list reply) :
  1 ≤ maxRetries this →
  provider w = Answer (Response code (JObj fields)) :: rest →
  200 ≤ code < 300 →
  getAuthToken this address password w
  = (Return (own_property "token" fields),
     World (authorization w) rest
       (trace w ++ [Sent (Request "POST" "/token" (credentials address password)
                            (authorization w))]))
  ∧ (List.Forall (fun field => fst field ≠ "token") fields →
     fst (getAuthToken this address password w) = Return JUndefined).
Proof.
  intros HN Hprov Hok.
  assert (Hcall : getAuthToken this address password w
     = (Return (own_property "token" fields),
        World (authorization w) rest
          (trace w ++ [Sent (Request "POST" "/token" (credentials address password)
                               (authorization w))]))).
  { unfold getAuthToken, try_catch. erewrite withRetry_first; [done|done|].
    unfold bind. by rewrite (send_accepted _ _ _ _ w _ rest Hprov). }
  split; [done|]. rewrite Hcall. simpl. intros Hnone. f_equal.
  clear -Hnone. induction fields as [|[k v] fields IH]; simpl; [done|].
  inversion Hnone as [|? ? Hk Hrest]. subst. simpl in Hk.
  destruct (String.eqb k "token") eqn:Heq; [by apply String.eqb_eq in Heq|]. auto.
Qed.

Lemma getAuthToken_first_witness :
  getAuthToken default_service "a@example.com" "secret"
    (offline [Answer (Response 200 (JObj [("id", JStr "abc")]))])
  = (Return (own_property "token" [("id", JStr "abc")]),
     World (authorization (offline [Answer (Response 200 (JObj [("id", JStr "abc")]))])) []
       (trace (offline [Answer (Response 200 (JObj [("id", JStr "abc")]))])
        ++ [Sent (Request "POST" "/token" (credentials "a@example.com" "secret")
                    (authorization
                       (offline [Answer (Response 200 (JObj [("id", JStr "abc")]))])))]))
  ∧ (List.Forall (fun field => fst field ≠ "token") [("id", JStr "abc")] →
     fst (getAuthToken default_service "a@example.com" "secret"
            (offline [Answer (Response 200 (JObj [("id", JStr "abc")]))]))
     = Return JUndefined).
Proof.
  apply (getAuthToken_first default_service "a@example.com" "secret"
           (offline [Answer (Response 200 (JObj [("id", JStr "abc")]))]) 200
           [("id", JStr "abc")] []); [by vm_compute|reflexivity|lia].
Defined.

(** X21: [getEmailContent], after a successful authentication, on a 2xx
    reply with an object as body returns the message's [id], [from], [to],
    [subject], [text], [html], [attachments] and, under [receivedDate], its
    [createdAt]; on a 2xx reply with a falsy body it fails with the message
    that the response is invalid. *)
Theorem getEmailContent_result (messageId address password : string) (w : world)
    (auth answer : http_response) (rest : list reply) (token : json) :
  provider w = Answer auth :: Answer answer :: rest →
  200 ≤ status auth < 300 →
  prop "token" (data auth) = Return token →
  200 ≤ status answer < 300 →
  (∀ m, data answer = JObj m →
        fst (getEmailContent messageId address password w)
        = Return (JObj [("id", own_property "id" m); ("from", own_property "from" m);
                        ("to", own_property "to" m);
                        ("subject", own_property "subject" m);
                        ("text", own_property "text" m); ("html", own_property "html" m);
                        ("attachments", own_property "attachments" m);
                        ("receivedDate", own_property "createdAt" m)]))
  ∧ (truthy (data answer) = false →
     fst (getEmailContent messageId address password w)
     = Throw (new_Error "Failed to fetch email content: Invalid response from server")).
Proof.
  intros Hprov Hauth Htoken Hanswer.
  assert (Hcall : fst (getEmailContent messageId address password w)
     = match (if negb (truthy (data answer))
              then Throw (new_Error "Invalid response from server")
              else content (data answer)) with
       | Return v => Return v
       | Throw e => Throw (new_Error ("Failed to fetch email content: " +:+ message e))
       end).
  { unfold getEmailContent, try_catch, bind.
    erewrite send_accepted; [|exact Hprov|done].
    unfold run at 1. rewrite Htoken. unfold setAuthToken.
    erewrite send_accepted; [|reflexivity|done].
    unfold clearAuthToken, run, throw.
    by destruct (if negb (truthy (data answer)) then _ else _). }
  rewrite Hcall. split.
  - by intros m ->.
  - by intros ->.
Qed.

Lemma getEmailContent_result_witness :
  fst (getEmailContent "m1" "a@example.com" "secret" no_members)
  = Return (JObj [("id", own_property "id" [("hydra:member", JStr "none")]);
                  ("from", own_property "from" [("hydra:member", JStr "none")]);
                  ("to", own_property "to" [("hydra:member", JStr "none")]);
                  ("subject", own_property "subject" [("hydra:member", JStr "none")]);
                  ("text", own_property "text" [("hydra:member", JStr "none")]);
                  ("html", own_property "html" [("hydra:member", JStr "none")]);
                  ("attachments", own_property "attachments" [("hydra:member", JStr "none")]);
                  ("receivedDate", own_property "createdAt" [("hydra:member", JStr "none")])]).
Proof.
  destruct (getEmailContent_result "m1" "a@example.com" "secret" no_members
              (Response 200 (JObj [("token", JStr "tok")]))
              (Response 200 (JObj [("hydra:member", JStr "none")])) [] (JStr "tok"))
    as [H _]; [reflexivity|simpl; lia|reflexivity|simpl; lia|].
  by apply H.
Defined.

End ClientOperations.
